(** * Reservoir SDK: route construction, mid-price composition and router call
      encoding

    A shallow embedding of [Route] (entities/route.ts), of
    [Router.swapCallParameters] (router.ts) and of the protocol constants
    (constants.ts), together with the parts of the core SDK types they touch
    ([Token], [Currency], [CurrencyAmount], [Price]).  JavaScript exceptions are
    values of [Error] carried by the [result] monad; [undefined] is [None]. *)

From stdpp Require Import base option list strings gmap.
From Stdlib Require Import Ascii ZArith Lia HexadecimalString HexadecimalN.

Open Scope Z_scope.

(** ** Exceptions and the error monad *)

(** What a call can throw.  [Invariant m] is tiny-invariant's
    [Invariant failed: m]; [TypeError] is a property access on [undefined];
    [SyntaxError] is [JSBI.BigInt] on a malformed string; [InvalidAddress a] is
    the error of [validateAndParseAddress]; [InsufficientLiquidity] and
    [ConvergenceFailure] are the curve-math errors named by the
    specification. *)
Inductive Error : Type :=
| Invariant (message : string)
| TypeError
| SyntaxError
| InvalidAddress (address : string)
| InsufficientLiquidity
| ConvergenceFailure.

Inductive result (A : Type) : Type :=
| Ok (a : A)
| Err (e : Error).
Arguments Ok {A} a.
Arguments Err {A} e.

#[export] Instance result_ret : MRet result := λ A a, Ok a.
#[export] Instance result_bind : MBind result := λ A B f m,
  match m with
  | Ok a => f a
  | Err e => Err e
  end.

(** [invariant(cond, message)] of tiny-invariant. *)
Definition invariant (cond : bool) (message : string) : result unit :=
  if cond then Ok tt else Err (Invariant message).

(** Member access on a value that may be [undefined]. *)
Definition defined {A : Type} (o : option A) : result A :=
  match o with
  | Some a => Ok a
  | None => Err TypeError
  end.

(** [Array.prototype.push(...items)]: appends its arguments, of which there
    may be none. *)
Definition push {A : Type} (array items : list A) : list A := array ++ items.

(** [Array.prototype.entries()]. *)
Definition entries {A : Type} (array : list A) : list (nat * A) :=
  zip (seq 0 (length array)) array.

(** The named errors of the error taxonomy, as the invariant messages the
    code raises them with. *)
Definition EmptyRoute : Error := Invariant "PAIRS".
Definition ChainIdMismatch : Error := Invariant "CHAIN_IDS".
Definition InputNotInRoute : Error := Invariant "INPUT".
Definition OutputNotInRoute : Error := Invariant "OUTPUT".
Definition DisconnectedPath : Error := Invariant "PATH".
Definition NativeInNativeOut : Error := Invariant "ETHER_IN_OUT".
Definition InvalidToken : Error := Invariant "TOKEN".
Definition SameToken : Error := Invariant "SAME_TOKEN".

(** ** constants.ts *)

Definition MINIMUM_LIQUIDITY : Z := 1000.
Definition FEE_ACCURACY : Z := 1000000.
Definition A_PRECISION : Z := 100.
Definition DEFAULT_AMPLIFICATION_COEFFICIENT_PRECISE : Z := 1000 * A_PRECISION.
Definition ZERO : Z := 0.
Definition ONE : Z := 1.
Definition FIVE : Z := 5.

(** ** Core SDK value types *)

Module Fraction.
Record t : Type := mk { numerator : Z; denominator : Z }.

(** [Fraction.multiply]: numerators and denominators are multiplied, the
    result is not reduced. *)
Definition multiply (a b : t) : t :=
  mk (numerator a * numerator b) (denominator a * denominator b).
End Fraction.

(** A slippage tolerance is a [Percent], a fraction. *)
Abbreviation Percent := Fraction.t.

Module Token.
Record t : Type := mk { chainId : Z; address : string; decimals : Z }.

(** [Token.equals] on a token argument: same chain and same address. *)
Definition equals (a b : t) : bool :=
  (chainId a =? chainId b) && String.eqb (address a) (address b).
End Token.

Module Currency.
(** [Currency = NativeCurrency | Token].  [wrapped] is abstract on
    [NativeCurrency] with return type [Token]; the native placeholder
    carries the token its subclass answers. *)
Inductive t : Type :=
| Native (chainId : Z) (wrappedToken : Token.t)
| Tok (token : Token.t).

Definition isNative (c : t) : bool :=
  match c with
  | Native _ _ => true
  | Tok _ => false
  end.

Definition wrapped (c : t) : Token.t :=
  match c with
  | Native _ w => w
  | Tok token => token
  end.

Definition equals (a b : t) : bool :=
  match a, b with
  | Tok x, Tok y => Token.equals x y
  | Native ca _, Native cb _ => ca =? cb
  | _, _ => false
  end.
End Currency.

Module CurrencyAmount.
Record t (C : Type) : Type := mk { currency : C; quotient : Z }.
Arguments mk {C} currency quotient.
Arguments currency {C} _.
Arguments quotient {C} _.
End CurrencyAmount.

Module Price.
Record t : Type := mk {
  baseCurrency : Currency.t;
  quoteCurrency : Currency.t;
  numerator : Z;
  denominator : Z
}.

(** [new Price(baseCurrency, quoteCurrency, denominator, numerator)]: the
    denominator comes before the numerator. *)
Definition new (baseCurrency quoteCurrency : Currency.t)
    (denominator numerator : Z) : t :=
  mk baseCurrency quoteCurrency numerator denominator.

Definition asFraction (p : t) : Fraction.t :=
  Fraction.mk (numerator p) (denominator p).

(** [Price.multiply]: the quote of the left price must be the base of the
    right one. *)
Definition multiply (this other : t) : result t :=
  _ ← invariant (Currency.equals (quoteCurrency this) (baseCurrency other)) "TOKEN";
  let fraction := Fraction.multiply (asFraction this) (asFraction other) in
  Ok (new (baseCurrency this) (quoteCurrency other)
          (Fraction.denominator fraction) (Fraction.numerator fraction)).
End Price.

(** ** Pair *)

Module Pair.
(** Modelled from the spec: the [Pair] entity (entities/pair.ts is not part of
    the available sources).  A pair is an immutable snapshot of one pool: two
    reserves, each tagged with its token, a curve identifier, a fee and, for
    the stable curve, an amplification coefficient.  The stable-curve spot
    prices are not specified in the available material, so the snapshot
    carries them as two opaque ratios. *)
Record t : Type := mk {
  reserve0 : CurrencyAmount.t Token.t;
  reserve1 : CurrencyAmount.t Token.t;
  curveId : Z;
  swapFee : Z;
  amplificationCoefficient : option Z;
  stableRatio0 : Fraction.t;
  stableRatio1 : Fraction.t
}.

(** Modelled from the spec: the two tokens of the pool are the tokens of its
    two reserves, and the pair lives on the chain of its tokens. *)
Definition token0 (p : t) : Token.t := CurrencyAmount.currency (reserve0 p).
Definition token1 (p : t) : Token.t := CurrencyAmount.currency (reserve1 p).
Definition chainId (p : t) : Z := Token.chainId (token0 p).

(** Modelled from the spec: a pair contains a token when the token equals one
    of its two tokens. *)
Definition involvesToken (p : t) (token : Token.t) : bool :=
  Token.equals token (token0 p) || Token.equals token (token1 p).

(** Modelled from the spec: [spotPrice(ofToken)] of the stable curve, the
    price of [token0] in terms of [token1] and the other way round. *)
Definition token0Price (p : t) : Price.t :=
  Price.new (Currency.Tok (token0 p)) (Currency.Tok (token1 p))
            (Fraction.denominator (stableRatio0 p)) (Fraction.numerator (stableRatio0 p)).
Definition token1Price (p : t) : Price.t :=
  Price.new (Currency.Tok (token1 p)) (Currency.Tok (token0 p))
            (Fraction.denominator (stableRatio1 p)) (Fraction.numerator (stableRatio1 p)).
End Pair.

(** ** Route (entities/route.ts) *)

Module Route.
Record t : Type := mk {
  pairs : list Pair.t;
  path : list Token.t;
  input : Currency.t;
  output : option Currency.t;
  _midPrice : option Price.t
}.

(** The body of the constructor's loop over [pairs.entries()]: [path] grows
    by one token per pair. *)
Fixpoint constructor_loop (pairEntries : list (nat * Pair.t)) (path : list Token.t)
    : result (list Token.t) :=
  match pairEntries with
  | [] => Ok path
  | (i, p) :: rest =>
      currentInput ← defined (path !! i);
      _ ← invariant (Token.equals currentInput (Pair.token0 p)
                     || Token.equals currentInput (Pair.token1 p)) "PATH";
      let output := if Token.equals currentInput (Pair.token0 p)
                    then Pair.token1 p else Pair.token0 p in
      constructor_loop rest (push path [output])
  end.

Definition constructor (pairs : list Pair.t) (input : Currency.t)
    (output : option Currency.t) : result t :=
  _ ← invariant (0 <? length pairs)%nat "PAIRS";
  first ← defined (pairs !! 0%nat);
  let chainId := Pair.chainId first in
  _ ← invariant (forallb (λ p, Pair.chainId p =? chainId) pairs) "CHAIN_IDS";
  let wrappedInput := Currency.wrapped input in
  _ ← invariant (Pair.involvesToken first wrappedInput) "INPUT";
  outputInvolved ←
    match output with
    | None => Ok true
    | Some out =>
        lastPair ← defined (pairs !! (length pairs - 1)%nat);
        Ok (Pair.involvesToken lastPair (Currency.wrapped out))
    end;
  _ ← invariant outputInvolved "OUTPUT";
  path ← constructor_loop (entries pairs) [wrappedInput];
  Ok (mk pairs path input output None).

(** [_getPrice(token, pair)]; the token comes from [this.path[i]] and is
    dereferenced only in the two branches that compare it. *)
Definition _getPrice (token : option Token.t) (p : Pair.t) : result (option Price.t) :=
  if Pair.curveId p =? 0 then
    token ← defined token;
    Ok (Some (if Token.equals token (Pair.token0 p)
              then Price.new (Currency.Tok (CurrencyAmount.currency (Pair.reserve0 p)))
                             (Currency.Tok (CurrencyAmount.currency (Pair.reserve1 p)))
                             (CurrencyAmount.quotient (Pair.reserve0 p))
                             (CurrencyAmount.quotient (Pair.reserve1 p))
              else Price.new (Currency.Tok (CurrencyAmount.currency (Pair.reserve1 p)))
                             (Currency.Tok (CurrencyAmount.currency (Pair.reserve0 p)))
                             (CurrencyAmount.quotient (Pair.reserve1 p))
                             (CurrencyAmount.quotient (Pair.reserve0 p))))
  else if Pair.curveId p =? 1 then
    token ← defined token;
    Ok (Some (if Token.equals token (Pair.token0 p)
              then Pair.token0Price p else Pair.token1Price p))
  else Ok None.

(** The loop of [midPrice] that fills [prices]. *)
Fixpoint midPrice_loop (path : list Token.t) (pairEntries : list (nat * Pair.t))
    (prices : list (option Price.t)) : result (list (option Price.t)) :=
  match pairEntries with
  | [] => Ok prices
  | (i, p) :: rest =>
      price ← _getPrice (path !! i) p;
      midPrice_loop path rest (push prices [price])
  end.

(** [accumulator.multiply(currentValue)] where either side may be
    [undefined]. *)
Definition multiply_step (accumulator currentValue : option Price.t)
    : result (option Price.t) :=
  this ← defined accumulator;
  other ← defined currentValue;
  product ← Price.multiply this other;
  Ok (Some product).

(** [array.reduce(callback, initialValue)] for a callback that may throw. *)
Fixpoint reduce {A B : Type} (callback : B → A → result B) (array : list A)
    (initialValue : B) : result B :=
  match array with
  | [] => Ok initialValue
  | currentValue :: rest =>
      accumulator ← callback initialValue currentValue;
      reduce callback rest accumulator
  end.

(** The [midPrice] getter.  It reads and writes the memo field [_midPrice],
    so it returns the price together with the route after the call. *)
Definition midPrice (this : t) : result (Price.t * t) :=
  match _midPrice this with
  | Some cached => Ok (cached, this)
  | None =>
      prices ← midPrice_loop (path this) (entries (pairs this)) [];
      reduced ← reduce multiply_step (drop 1 prices) (mjoin (prices !! 0%nat));
      reduced ← defined reduced;
      quoteCurrency ← defined (output this);
      let price := Price.new (input this) quoteCurrency
                             (Price.denominator reduced) (Price.numerator reduced) in
      Ok (price, mk (pairs this) (path this) (input this) (output this) (Some price))
  end.

Definition chainId (this : t) : result Z :=
  first ← defined (pairs this !! 0%nat);
  Ok (Pair.chainId first).
End Route.

(** ** Trade *)

Inductive TradeType : Type := EXACT_INPUT | EXACT_OUTPUT.

Module Trade.
(** Modelled from the spec: the [Trade] entity (entities/trade.ts is not part
    of the available sources): a route, a trade-type tag and the amounts on
    both sides. *)
Record t : Type := mk {
  route : Route.t;
  tradeType : TradeType;
  inputAmount : CurrencyAmount.t Currency.t;
  outputAmount : CurrencyAmount.t Currency.t
}.

(** Modelled from the spec: [minimumAmountOut(allowedSlippage)] is, for
    EXACT_OUTPUT, the exact requested output and, for EXACT_INPUT, the computed
    output reduced by the slippage fraction, rounded down. *)
Definition minimumAmountOut (this : t) (slippageTolerance : Percent)
    : CurrencyAmount.t Currency.t :=
  match tradeType this with
  | EXACT_OUTPUT => outputAmount this
  | EXACT_INPUT =>
      let n := Fraction.numerator slippageTolerance in
      let d := Fraction.denominator slippageTolerance in
      CurrencyAmount.mk (CurrencyAmount.currency (outputAmount this))
                        (CurrencyAmount.quotient (outputAmount this) * (d - n) / d)
  end.

(** Modelled from the spec: [maximumAmountIn(allowedSlippage)] is, for
    EXACT_INPUT, the exact supplied input and, for EXACT_OUTPUT, the computed
    input increased by the slippage fraction, rounded up. *)
Definition maximumAmountIn (this : t) (slippageTolerance : Percent)
    : CurrencyAmount.t Currency.t :=
  match tradeType this with
  | EXACT_INPUT => inputAmount this
  | EXACT_OUTPUT =>
      let n := Fraction.numerator slippageTolerance in
      let d := Fraction.denominator slippageTolerance in
      CurrencyAmount.mk (CurrencyAmount.currency (inputAmount this))
                        (- (- (CurrencyAmount.quotient (inputAmount this) * (d + n)) / d))
  end.
End Trade.

(** ** Router (router.ts) *)

(** The helpers the router imports from outside the repository.  Each is a
    function of its arguments; [None] stands for the helper throwing. *)
Class Externals : Type := {
  validateAndParseAddress : string → option string;
  encodeUnwrapWETH9 : Z → string → option string;
  encodeMulticall : list string → string
}.

Module Router.
Record TradeOptions : Type := mkOptions {
  allowedSlippage : Percent;
  recipient : string;
  feeOnTransfer : option bool
}.

(** One positional argument: [string | string[] | number[]]. *)
Inductive Arg : Type :=
| ArgString (s : string)
| ArgStrings (l : list string)
| ArgNumbers (l : list Z).

(** [args : (string | string[] | number[])[] | string]. *)
Inductive Args : Type :=
| Positional (l : list Arg)
| Encoded (calldata : string).

Record SwapParameters : Type := mkParameters {
  methodName : string;
  args : Args;
  value : string
}.

(** [JSBI.prototype.toString(16)]: lower-case digits, no leading zeros, a
    minus sign for negative numbers. *)
Definition toString16 (z : Z) : string :=
  match z with
  | Zneg p => "-" +:+ NilZero.string_of_uint (N.to_hex_uint (Npos p))
  | _ => NilZero.string_of_uint (N.to_hex_uint (Z.to_N z))
  end.

Definition toHex (currencyAmount : CurrencyAmount.t Currency.t) : string :=
  "0x" +:+ toString16 (CurrencyAmount.quotient currencyAmount).

Definition ZERO_HEX : string := "0x0".

(** [JSBI.BigInt(s)] on the strings [toHex] produces: the prefix [0x]
    followed by lower-case hexadecimal digits.  A sign after the prefix is a
    syntax error, as in JavaScript. *)
Definition JSBI_BigInt (s : string) : result Z :=
  match s with
  | String "0"%char (String "x"%char digits) =>
      match NilZero.uint_of_string digits with
      | Some d => Ok (Z.of_N (N.of_hex_uint d))
      | None => Err SyntaxError
      end
  | _ => Err SyntaxError
  end.

Section WithExternals.
Context `{Externals}.

Definition swapCallParameters (trade : Trade.t) (options : TradeOptions)
    : result SwapParameters :=
  let etherIn := Currency.isNative (CurrencyAmount.currency (Trade.inputAmount trade)) in
  let etherOut := Currency.isNative (CurrencyAmount.currency (Trade.outputAmount trade)) in
  _ ← invariant (negb (etherIn && etherOut)) "ETHER_IN_OUT";
  let calldatas : list string := [] in
  to ← match validateAndParseAddress (recipient options) with
       | Some checksummed => Ok checksummed
       | None => Err (InvalidAddress (recipient options))
       end;
  let amountIn := toHex (Trade.maximumAmountIn trade (allowedSlippage options)) in
  let amountOut := toHex (Trade.minimumAmountOut trade (allowedSlippage options)) in
  let path := Token.address <$> Route.path (Trade.route trade) in
  let curveIds := Pair.curveId <$> Route.pairs (Trade.route trade) in
  let value := if etherIn then amountIn else ZERO_HEX in
  let '(methodName, args, calldatas) :=
    match Trade.tradeType trade with
    | EXACT_INPUT =>
        ("swapExactForVariable",
         Positional [ArgString amountIn; ArgString amountOut; ArgStrings path;
                     ArgNumbers curveIds; ArgString to],
         push calldatas [])
    | EXACT_OUTPUT =>
        ("swapVariableForExact",
         Positional [ArgString amountOut; ArgString amountIn; ArgStrings path;
                     ArgNumbers curveIds; ArgString to],
         push calldatas [])
    end in
  calldatas ←
    (if etherOut then
       amountMinimum ← JSBI_BigInt amountOut;
       unwrap ← match encodeUnwrapWETH9 amountMinimum (recipient options) with
                | Some calldata => Ok calldata
                | None => Err (InvalidAddress (recipient options))
                end;
       Ok (push calldatas [unwrap])
     else Ok calldatas);
  let '(methodName, args) :=
    if (1 <? length calldatas)%nat
    then ("multicall", Encoded (encodeMulticall calldatas))
    else (methodName, args) in
  Ok (mkParameters methodName args value).

End WithExternals.
End Router.

(** ** Constant-product curve *)

Module ConstantProduct.
(** Modelled from the spec: the constant-product quoting of [Pair]
    (entities/pair.ts is not part of the available sources), on raw integer
    reserves [rIn], [rOut] and fee [f] in parts per [FEE_ACCURACY].
    Insufficient liquidity is a zero reserve or an output that is not below the
    available reserve. *)
Definition quoteOutputForInput (rIn rOut f amountIn : Z) : result Z :=
  if (rIn =? 0) || (rOut =? 0) then Err InsufficientLiquidity
  else
    let amountInAfterFee := amountIn * (FEE_ACCURACY - f) in
    let amountOut := amountInAfterFee * rOut / (rIn * FEE_ACCURACY + amountInAfterFee) in
    if rOut <=? amountOut then Err InsufficientLiquidity else Ok amountOut.

(** Division rounded up. *)
Definition ceilDiv (a b : Z) : Z := - (- a / b).

(** Modelled from the spec: the exact-output direction is the algebraic
    inverse of the exact-input formula, rounded up. *)
Definition quoteInputForOutput (rIn rOut f amountOut : Z) : result Z :=
  if (rIn =? 0) || (rOut =? 0) then Err InsufficientLiquidity
  else if rOut <=? amountOut then Err InsufficientLiquidity
  else Ok (ceilDiv (rIn * amountOut * FEE_ACCURACY)
                   ((rOut - amountOut) * (FEE_ACCURACY - f))).

(** Modelled from the spec: the exact-output direction when "rounded up" is
    carried out as one more than the floored quotient, the other way an
    integer inverse is rounded up so that the input is never insufficient. *)
Definition quoteInputForOutputPlusOne (rIn rOut f amountOut : Z) : result Z :=
  if (rIn =? 0) || (rOut =? 0) then Err InsufficientLiquidity
  else if rOut <=? amountOut then Err InsufficientLiquidity
  else Ok (rIn * amountOut * FEE_ACCURACY
           / ((rOut - amountOut) * (FEE_ACCURACY - f)) + 1).

End ConstantProduct.

(** ** Concrete tokens, pools, routes and trades *)

Module Examples.
Definition AVALANCHE : Z := 43114.

Definition USDC : Token.t :=
  Token.mk AVALANCHE "0x2B0d36FACD61B71CC05ab8F3D2355ec3631C0dd5" 6.
Definition USDT : Token.t :=
  Token.mk AVALANCHE "0xfbC22278A96299D91d41C453234d97b4F5Eb9B2d" 6.
Definition WAVAX : Token.t :=
  Token.mk AVALANCHE "0xB31f66AA3C1e785363F0875A1B74E27b85FD66c7" 18.
Definition AVAX : Currency.t := Currency.Native AVALANCHE WAVAX.

Definition constantProductPair (a b : Token.t) (ra rb : Z) : Pair.t :=
  Pair.mk (CurrencyAmount.mk a ra) (CurrencyAmount.mk b rb) 0 3000 None
          (Fraction.mk rb ra) (Fraction.mk ra rb).

(** Pool 1 holds 1,000,000 USDC and 950,000 USDT, pool 2 holds 2,000,000
    USDT and 2,100,000 WAVAX.  In each pool [token0] is the token with the
    lower address. *)
Definition pool1 : Pair.t := constantProductPair USDC USDT 1000000 950000.
Definition pool2 : Pair.t := constantProductPair WAVAX USDT 2100000 2000000.

(** A pool whose curve identifier is neither 0 nor 1. *)
Definition oddPool : Pair.t :=
  Pair.mk (CurrencyAmount.mk WAVAX 2100000) (CurrencyAmount.mk USDT 2000000) 2 3000 None
          (Fraction.mk 1 1) (Fraction.mk 1 1).

Definition oddRoute : Route.t :=
  Route.mk [oddPool] [USDT; WAVAX] (Currency.Tok USDT) (Some (Currency.Tok WAVAX)) None.
Definition route12 : Route.t :=
  Route.mk [pool1; pool2] [USDC; USDT; WAVAX] (Currency.Tok USDC)
           (Some (Currency.Tok WAVAX)) None.
(** USDC to USDC over the one pool USDC/USDT. *)
Definition routeBack : Route.t :=
  Route.mk [pool1] [USDC; USDT] (Currency.Tok USDC) (Some (Currency.Tok USDC)) None.
Definition routeOut : Route.t :=
  Route.mk [pool1; pool2] [USDC; USDT; WAVAX] (Currency.Tok USDC) (Some AVAX) None.
Definition routeIn : Route.t :=
  Route.mk [pool2; pool1] [WAVAX; USDT; USDC] AVAX (Some (Currency.Tok USDC)) None.

(** Native AVAX to native AVAX, through USDT and back. *)
Definition routeRound : Route.t :=
  Route.mk [pool2; pool2] [WAVAX; USDT; WAVAX] AVAX (Some AVAX) None.

(** 1000 USDC in, native AVAX out: 946 USDT after the first hop, 989 after
    the second. *)
Definition tradeOut : Trade.t :=
  Trade.mk routeOut EXACT_INPUT
           (CurrencyAmount.mk (Currency.Tok USDC) 1000)
           (CurrencyAmount.mk AVAX 989).
(** 1000 native AVAX in, USDC out: 949 USDT, then 994 USDC. *)
Definition tradeIn : Trade.t :=
  Trade.mk routeIn EXACT_INPUT
           (CurrencyAmount.mk AVAX 1000)
           (CurrencyAmount.mk (Currency.Tok USDC) 994).
(** 989 WAVAX out for USDC in: 946 USDT are needed, hence 1000 USDC. *)
Definition tradeExactOut : Trade.t :=
  Trade.mk route12 EXACT_OUTPUT
           (CurrencyAmount.mk (Currency.Tok USDC) 1000)
           (CurrencyAmount.mk (Currency.Tok WAVAX) 989).
(** 1000 native AVAX in, native AVAX out. *)
Definition tradeBothNative : Trade.t :=
  Trade.mk routeRound EXACT_INPUT
           (CurrencyAmount.mk AVAX 1000)
           (CurrencyAmount.mk AVAX 992).

Definition alice : string := "0x70997970C51812dc3A010C7d01b50e0d17dc79C8".
Definition zeroSlippage : Percent := Fraction.mk 0 100.
Definition halfPercent : Percent := Fraction.mk 50 10000.
Definition options : Router.TradeOptions := Router.mkOptions zeroSlippage alice None.
Definition optionsHalf : Router.TradeOptions := Router.mkOptions halfPercent alice None.

(** What the router answers on [tradeOut], [tradeIn] and [tradeExactOut]. *)
Definition callOut : Router.SwapParameters :=
  Router.mkParameters "swapExactForVariable"
    (Router.Positional
       [Router.ArgString "0x3e8"; Router.ArgString "0x3dd";
        Router.ArgStrings [Token.address USDC; Token.address USDT; Token.address WAVAX];
        Router.ArgNumbers [0; 0]; Router.ArgString alice])
    "0x0".
Definition callIn : Router.SwapParameters :=
  Router.mkParameters "swapExactForVariable"
    (Router.Positional
       [Router.ArgString "0x3e8"; Router.ArgString "0x3e2";
        Router.ArgStrings [Token.address WAVAX; Token.address USDT; Token.address USDC];
        Router.ArgNumbers [0; 0]; Router.ArgString alice])
    "0x3e8".
Definition callExactOut : Router.SwapParameters :=
  Router.mkParameters "swapVariableForExact"
    (Router.Positional
       [Router.ArgString "0x3dd"; Router.ArgString "0x3ed";
        Router.ArgStrings [Token.address USDC; Token.address USDT; Token.address WAVAX];
        Router.ArgNumbers [0; 0]; Router.ArgString alice])
    "0x0".

(** Stand-ins for the imported helpers: every recipient is taken as already
    checksummed and the encoders produce readable text. *)
#[export] Instance externals : Externals := {|
  validateAndParseAddress := λ a, Some a;
  encodeUnwrapWETH9 := λ amount to, Some ("unwrapWETH9:" +:+ Router.toString16 amount +:+ ":" +:+ to);
  encodeMulticall := λ calldatas, String.concat "," calldatas
|}.
End Examples.

(** ** Specification-side notions for routes *)

Module RouteSpec.
(** The token that leaves pair [p] when [a] enters it. *)
Definition otherToken (p : Pair.t) (a : Token.t) : Token.t :=
  if Token.equals a (Pair.token0 p) then Pair.token1 p else Pair.token0 p.

(** One hop: [a] is a token of [p] and [b] is the other one. *)
Definition Hop (a : Token.t) (p : Pair.t) (b : Token.t) : Prop :=
  Pair.involvesToken p a = true ∧ b = otherToken p a.

(** [Chain a ps ts]: [ts] is the sequence of tokens visited when the pairs
    [ps] are crossed one after the other starting from [a]. *)
Inductive Chain : Token.t → list Pair.t → list Token.t → Prop :=
| Chain_end a : Chain a [] [a]
| Chain_hop a p b ps ts : Hop a p b → Chain b ps ts → Chain a (p :: ps) (a :: ts).

(** The tokens met after [a] along [ps], when every hop connects. *)
Fixpoint follow (a : Token.t) (ps : list Pair.t) : option (list Token.t) :=
  match ps with
  | [] => Some []
  | p :: rest =>
      if Pair.involvesToken p a
      then ts ← follow (otherToken p a) rest; Some (otherToken p a :: ts)
      else None
  end.

Definition NonEmpty (pairs : list Pair.t) : Prop := pairs ≠ [].

Definition SameChain (pairs : list Pair.t) : Prop :=
  ∀ p q, p ∈ pairs → q ∈ pairs → Pair.chainId p = Pair.chainId q.

Definition InputInFirst (pairs : list Pair.t) (input : Currency.t) : Prop :=
  ∃ p, head pairs = Some p ∧ Pair.involvesToken p (Currency.wrapped input) = true.

(** The check on the output concerns a defined output only. *)
Definition OutputInLast (pairs : list Pair.t) (output : option Currency.t) : Prop :=
  ∀ out, output = Some out →
    ∃ p, last pairs = Some p ∧ Pair.involvesToken p (Currency.wrapped out) = true.

Definition Connected (pairs : list Pair.t) (input : Currency.t) : Prop :=
  ∃ ts, Chain (Currency.wrapped input) pairs ts.

(** Modelled from the spec: [spotPrice(ofToken)], the marginal price of
    [ofToken] in terms of the other token of the pair, as a ratio: for the
    constant-product curve the reserve of the other token over the reserve of
    [ofToken], for the stable curve the ratio the snapshot carries. *)
Definition spotPrice (p : Pair.t) (ofToken : Token.t) : Fraction.t :=
  if Pair.curveId p =? 0 then
    if Token.equals ofToken (Pair.token0 p)
    then Fraction.mk (CurrencyAmount.quotient (Pair.reserve1 p))
                     (CurrencyAmount.quotient (Pair.reserve0 p))
    else Fraction.mk (CurrencyAmount.quotient (Pair.reserve0 p))
                     (CurrencyAmount.quotient (Pair.reserve1 p))
  else
    if Token.equals ofToken (Pair.token0 p)
    then Pair.stableRatio0 p else Pair.stableRatio1 p.

(** The spot price of every hop, in path order, each oriented from the token
    that enters the hop. *)
Fixpoint hopSpotPrices (a : Token.t) (ps : list Pair.t) : list Fraction.t :=
  match ps with
  | [] => []
  | p :: rest => spotPrice p a :: hopSpotPrices (otherToken p a) rest
  end.

Definition product (l : list Z) : Z := foldr Z.mul 1 l.

(** The product of the hop prices, as a price of the route's input in terms
    of its output. *)
Definition composedPrice (pairs : list Pair.t) (input output : Currency.t) : Price.t :=
  let hops := hopSpotPrices (Currency.wrapped input) pairs in
  Price.mk input output
           (product (Fraction.numerator <$> hops))
           (product (Fraction.denominator <$> hops)).

Definition KnownCurve (p : Pair.t) : Prop := Pair.curveId p = 0 ∨ Pair.curveId p = 1.

Definition knownCurve (p : Pair.t) : bool :=
  (Pair.curveId p =? 0) || (Pair.curveId p =? 1).

(** The token of [p] that [a] stands for when it enters the pair. *)
Definition enteringToken (p : Pair.t) (a : Token.t) : Token.t :=
  if Token.equals a (Pair.token0 p) then Pair.token0 p else Pair.token1 p.

(** The spot price of one hop as a [Price] between the two tokens of the
    pair. *)
Definition hopPrice (p : Pair.t) (a : Token.t) : Price.t :=
  Price.mk (Currency.Tok (enteringToken p a)) (Currency.Tok (otherToken p a))
           (Fraction.numerator (spotPrice p a)) (Fraction.denominator (spotPrice p a)).

(** The price of every hop along the pairs, undefined where the curve is
    not one of the two known ones. *)
Fixpoint hopPriceOptions (a : Token.t) (ps : list Pair.t) : list (option Price.t) :=
  match ps with
  | [] => []
  | p :: rest =>
      (if knownCurve p then Some (hopPrice p a) else None)
        :: hopPriceOptions (otherToken p a) rest
  end.

(** The route after [midPrice] has stored [price] in its memo field. *)
Definition memoized (r : Route.t) (price : Price.t) : Route.t :=
  Route.mk (Route.pairs r) (Route.path r) (Route.input r) (Route.output r) (Some price).

(** A route that the constructor built from [pairs], [input] and [output],
    whatever its memo field holds by now: the four fields the constructor
    sets are read-only, the memo field is written by [midPrice]. *)
Definition Constructed (pairs : list Pair.t) (input : Currency.t)
    (output : option Currency.t) (route : Route.t) : Prop :=
  ∃ r, Route.constructor pairs input output = Ok r
       ∧ route = Route.mk (Route.pairs r) (Route.path r) (Route.input r)
                          (Route.output r) (Route._midPrice route).

(** The named errors of the error taxonomy. *)
Definition namedErrors : list Error :=
  [ChainIdMismatch; SameToken; InvalidToken; EmptyRoute; DisconnectedPath;
   InputNotInRoute; OutputNotInRoute; InsufficientLiquidity; ConvergenceFailure;
   NativeInNativeOut].
End RouteSpec.

(** ** Specification-side notions for the router *)

Module RouterSpec.
Section WithExternals.
Context `{Externals}.

(** The swap call on its own: method and positional arguments by trade type,
    and the native value to attach. *)
Definition plainSwap (trade : Trade.t) (options : Router.TradeOptions) (to : string)
    : Router.SwapParameters :=
  let etherIn := Currency.isNative (CurrencyAmount.currency (Trade.inputAmount trade)) in
  let amountIn :=
    Router.toHex (Trade.maximumAmountIn trade (Router.allowedSlippage options)) in
  let amountOut :=
    Router.toHex (Trade.minimumAmountOut trade (Router.allowedSlippage options)) in
  let path := Token.address <$> Route.path (Trade.route trade) in
  let curveIds := Pair.curveId <$> Route.pairs (Trade.route trade) in
  let value := if etherIn then amountIn else Router.ZERO_HEX in
  match Trade.tradeType trade with
  | EXACT_INPUT =>
      Router.mkParameters "swapExactForVariable"
        (Router.Positional
           [Router.ArgString amountIn; Router.ArgString amountOut;
            Router.ArgStrings path; Router.ArgNumbers curveIds; Router.ArgString to])
        value
  | EXACT_OUTPUT =>
      Router.mkParameters "swapVariableForExact"
        (Router.Positional
           [Router.ArgString amountOut; Router.ArgString amountIn;
            Router.ArgStrings path; Router.ArgNumbers curveIds; Router.ArgString to])
        value
  end.

End WithExternals.

(** Helpers that accept every recipient and encode every call to the same
    text. *)
Definition blankEncoders : Externals := {|
  validateAndParseAddress := λ a, Some a;
  encodeUnwrapWETH9 := λ _ _, Some "";
  encodeMulticall := λ _, ""
|}.
End RouterSpec.

(** ** Further notions for routes *)

Module RouteOps.
(** The token reached after crossing the pairs [ps] from [a]. *)
Definition endToken (a : Token.t) (ps : list Pair.t) : Token.t :=
  foldl (λ t p, RouteSpec.otherToken p t) a ps.

(** A pair between two different tokens. *)
Definition DistinctTokens (p : Pair.t) : Prop :=
  Token.equals (Pair.token0 p) (Pair.token1 p) = false.

Definition ConstantProductPair (p : Pair.t) : Prop := Pair.curveId p = 0.

(** A ratio turned upside down. *)
Definition invert (f : Fraction.t) : Fraction.t :=
  Fraction.mk (Fraction.denominator f) (Fraction.numerator f).

(** The same route value with another input and output. *)
Definition between (r : Route.t) (input : Currency.t) (output : option Currency.t)
    : Route.t :=
  Route.mk (Route.pairs r) (Route.path r) input output (Route._midPrice r).
End RouteOps.

(** ** Fetcher (fetcher.ts) *)

Module Fetcher.
(** A failed fetch: an exception thrown by the SDK, or a contract call that
    was rejected. *)
Inductive FetchError : Type :=
| Thrown (e : Error)
| CallException (contract method : string).

Inductive fetched (A : Type) : Type :=
| Fetched (a : A)
| Failed (e : FetchError).
Arguments Fetched {A} a.
Arguments Failed {A} e.

#[export] Instance fetched_ret : MRet fetched := λ A a, Fetched a.
#[export] Instance fetched_bind : MBind fetched := λ A B f m,
  match m with
  | Fetched a => f a
  | Failed e => Failed e
  end.

(** A synchronous SDK call inside an asynchronous function. *)
Definition sdk {A : Type} (r : result A) : fetched A :=
  match r with
  | Ok a => Fetched a
  | Err e => Failed (Thrown e)
  end.

(** [await contract.method()]: the ledger answers or the call is rejected. *)
Definition await {A : Type} (contract method : string) (answer : option A) : fetched A :=
  match answer with
  | Some a => Fetched a
  | None => Failed (CallException contract method)
  end.

(** The ledger as seen through a provider: what each contract read answers,
    [None] when the call is rejected.  [getPair] is the factory's lookup by
    the two token addresses and the curve id; the other reads are by contract
    address. *)
Record Provider : Type := mkProvider {
  allPairs : option (list string);
  getPair : string → string → Z → option string;
  getReserves : string → option (Z * Z);
  swapFee : string → option Z;
  getCurrentAPrecise : string → option Z;
  decimals : string → option Z
}.

(** A promise that was not awaited, with the outcome it will have. *)
Inductive Promise (A : Type) : Type := pending (outcome : option A).
Arguments pending {A} outcome.

(** What the fetcher uses from the core SDK and from the absent [Pair]
    class: the [Token] and [Pair] constructors, [Pair.getAddress],
    [Token.sortsBefore], [CurrencyAmount.fromRawAmount] and the table of
    wrapped native tokens.  Each is a function of its arguments that answers or
    throws. *)
Class Sdk : Type := {
  newToken : Z → string → Z → option string → option string → result Token.t;
  sortsBefore : Token.t → Token.t → result bool;
  fromRawAmount : Token.t → Z → result (CurrencyAmount.t Token.t);
  getAddress : Token.t → Token.t → Z → result string;
  newPair : CurrencyAmount.t Token.t → CurrencyAmount.t Token.t → Z → Promise Z
            → option Z → result Pair.t;
  WETH9 : Z → option Token.t
}.

(** [TOKEN_DECIMALS_CACHE]: decimals by chain id, then by address as it was
    given. *)
Abbreviation Cache := (gmap Z (gmap string Z)).

Definition MAINNET : Z := 1.

(** The cache the module starts with. *)
Definition TOKEN_DECIMALS_CACHE : Cache :=
  {[ MAINNET := {[ "0xE0B7927c4aF23765Cb51314A0E0521A9645F0E2A" := 9 ]} ]}.

Definition FACTORY_ADDRESS : string := "0xCae997a6f253814441B878868fd6DBB32a52816f".
Definition AddressZero : string := "0x0000000000000000000000000000000000000000".

(** [TOKEN_DECIMALS_CACHE?.[chainId]?.[address]]. *)
Definition cached (cache : Cache) (chainId : Z) (address : string) : option Z :=
  cache !! chainId ≫= λ byAddress, byAddress !! address.

Section WithSdk.
Context `{Sdk}.

Definition fetchAllPairs (provider : Provider) : fetched (list string) :=
  await FACTORY_ADDRESS "allPairs" (allPairs provider).

(** How far a call of [fetchTokenData] gets before it first gives up
    control: to its end, or to the [await] of the ledger read. *)
Inductive Started : Type :=
| Returned (outcome : fetched Token.t)
| Awaiting.

(** [fetchTokenData] from the call to its first suspension.  The cache is
    tested when the call starts: on a hit the token is built at once, with no
    read of the ledger and no write to the cache; on a miss the [decimals] read
    is sent through the provider and the call waits for the answer. *)
Definition fetchTokenData (cache : Cache) (chainId : Z) (address : string)
    (provider : Provider) (symbol name : option string) : Started :=
  match cached cache chainId address with
  | Some number => Returned (sdk (newToken chainId address number symbol name))
  | None => Awaiting
  end.

(** The rest of a suspended call, from the moment its read settles.  The
    callback given to [then] copies the cache as it is at that moment, which
    need not be the cache the call started with, and sets the entry; then the
    token is built.  A rejected read rejects the call and the callback does not
    run. *)
Definition fetchTokenData_resume (cache : Cache) (chainId : Z) (address : string)
    (provider : Provider) (symbol name : option string) : Cache * fetched Token.t :=
  match decimals provider address with
  | Some number =>
      let cache :=
        <[chainId := <[address := number]> (default ∅ (cache !! chainId))]> cache in
      let parsedDecimals := number in
      (cache, sdk (newToken chainId address parsedDecimals symbol name))
  | None => (cache, Failed (CallException address "decimals"))
  end.

Definition fetchPairData (tokenA tokenB : Token.t) (curveId : Z) (provider : Provider)
    : fetched Pair.t :=
  _ ← sdk (invariant (Token.chainId tokenA =? Token.chainId tokenB) "CHAIN_ID");
  address ← sdk (getAddress tokenA tokenB curveId);
  reserves ← await address "getReserves" (getReserves provider address);
  let '(rReserve0, rReserve1) := reserves in
  before ← sdk (sortsBefore tokenA tokenB);
  let balances := if before : bool then (rReserve0, rReserve1) else (rReserve1, rReserve0) in
  let swapFee := pending (swapFee provider address) in
  ampCoefficient ←
    (if curveId =? 1
     then a ← await address "getCurrentAPrecise" (getCurrentAPrecise provider address);
          Fetched (Some a)
     else Fetched None);
  amountA ← sdk (fromRawAmount tokenA (fst balances));
  amountB ← sdk (fromRawAmount tokenB (snd balances));
  sdk (newPair amountA amountB curveId swapFee ampCoefficient).

(** [_fetchPairIfExists]; the second token comes from a table lookup and may
    be [undefined]. *)
Definition _fetchPairIfExists (tokenA : Token.t) (tokenB : option Token.t) (curveId : Z)
    (provider : Provider) : fetched (option Pair.t) :=
  tokenB ← sdk (defined tokenB);
  pairAddress ← await FACTORY_ADDRESS "getPair"
                  (getPair provider (Token.address tokenA) (Token.address tokenB) curveId);
  if String.eqb pairAddress AddressZero then Fetched None
  else p ← fetchPairData tokenA tokenB curveId provider; Fetched (Some p).

(** [[...new Set(array)]] on objects: the first occurrence of every object
    is kept.  An object is told from the others by the tag it got when it was
    made. *)
Fixpoint uniqueObjects {A : Type} (seen : list nat) (array : list (nat * A))
    : list (nat * A) :=
  match array with
  | [] => []
  | (tag, a) :: rest =>
      if bool_decide (tag ∈ seen) then uniqueObjects seen rest
      else (tag, a) :: uniqueObjects (tag :: seen) rest
  end.

(** [fetchRelevantPairs].  [tokenA != tokenB] compares the two arguments as
    objects, which their values do not show: [sameObject] tells whether the
    caller passed one object twice.  Every fetched pair is a new object, tagged
    here with the position of the fetch that made it. *)
Definition fetchRelevantPairs (chainId : Z) (tokenA tokenB : Token.t) (sameObject : bool)
    (provider : Provider) : fetched (list Pair.t) :=
  _ ← sdk (invariant (Token.chainId tokenA =? Token.chainId tokenB) "CHAIN_ID");
  _ ← sdk (invariant (negb sameObject) "SAME_TOKEN");
  constantProduct ← _fetchPairIfExists tokenA (Some tokenB) 0 provider;
  stable ← _fetchPairIfExists tokenA (Some tokenB) 1 provider;
  nativeTokenAConstantProduct ← _fetchPairIfExists tokenA (WETH9 chainId) 0 provider;
  nativeTokenAStable ← _fetchPairIfExists tokenA (WETH9 chainId) 1 provider;
  nativeTokenBConstantProduct ← _fetchPairIfExists tokenB (WETH9 chainId) 0 provider;
  nativeTokenBStable ← _fetchPairIfExists tokenB (WETH9 chainId) 1 provider;
  let relevantPairs :=
    omap (λ tagged : nat * option Pair.t, p ← tagged.2; Some (tagged.1, p))
      [(1%nat, stable); (0%nat, constantProduct);
       (2%nat, nativeTokenAConstantProduct); (3%nat, nativeTokenAStable);
       (4%nat, nativeTokenBConstantProduct); (5%nat, nativeTokenBStable)] in
  Fetched (snd <$> uniqueObjects [] relevantPairs).

(** The arguments of one call of [fetchTokenData]. *)
Record Request : Type := mkRequest {
  requestChainId : Z;
  requestAddress : string;
  requestProvider : Provider;
  requestSymbol : option string;
  requestName : option string
}.

(** The module between two turns of the event loop: the cache, and the calls
    that wait for their ledger read. *)
Record State : Type := mkState {
  cacheNow : Cache;
  inFlight : list Request
}.

(** One turn: a new call, or the read of the waiting call at position [i]
    settling.  Calls may be made while others wait, and reads settle in any
    order. *)
Inductive Event : Type :=
| Call (request : Request)
| Settle (i : nat).

(** One turn on the module, with the outcome of the call that ends in it, if
    one does.  Settling a position where no call waits does nothing. *)
Definition step (s : State) (e : Event) : State * option (fetched Token.t) :=
  match e with
  | Call request =>
      match fetchTokenData (cacheNow s) (requestChainId request) (requestAddress request)
              (requestProvider request) (requestSymbol request) (requestName request) with
      | Returned outcome => (s, Some outcome)
      | Awaiting => (mkState (cacheNow s) (inFlight s ++ [request]), None)
      end
  | Settle i =>
      match inFlight s !! i with
      | Some request =>
          let '(cache, outcome) :=
            fetchTokenData_resume (cacheNow s) (requestChainId request)
              (requestAddress request) (requestProvider request)
              (requestSymbol request) (requestName request) in
          (mkState cache (delete i (inFlight s)), Some outcome)
      | None => (s, None)
      end
  end.

(** The module after a sequence of turns. *)
Definition run (s : State) (events : list Event) : State :=
  foldl (λ s e, (step s e).1) s events.

(** The module as it is loaded: the initial cache and no call waiting. *)
Definition initial : State := mkState TOKEN_DECIMALS_CACHE [].

End WithSdk.
End Fetcher.

(** ** A ledger and an SDK to run the fetcher on *)

Module FetcherExamples.
Definition DGD : string := "0xE0B7927c4aF23765Cb51314A0E0521A9645F0E2A".

(** A ledger on which every call is rejected. *)
Definition offline : Fetcher.Provider :=
  Fetcher.mkProvider None (λ _ _ _, None) (λ _, None) (λ _, None) (λ _, None) (λ _, None).

(** A ledger whose factory knows no pair and on which every token has six
    decimals. *)
Definition emptyFactory : Fetcher.Provider :=
  Fetcher.mkProvider (Some []) (λ _ _ _, Some Fetcher.AddressZero)
    (λ _, None) (λ _, None) (λ _, None) (λ _, Some 6).

(** A ledger whose factory knows one pair, the constant-product pool of USDC
    and USDT, holding 1,000,000 and 950,000. *)
Definition poolAddress : string := "0x5FbDB2315678afecb367f032d93F642f64180aa3".
Definition onePool : Fetcher.Provider :=
  Fetcher.mkProvider (Some [poolAddress])
    (λ a b curveId,
       if String.eqb a (Token.address Examples.USDC)
          && String.eqb b (Token.address Examples.USDT) && (curveId =? 0)
       then Some poolAddress else Some Fetcher.AddressZero)
    (λ _, Some (1000000, 950000)) (λ _, Some 3000) (λ _, None) (λ _, Some 6).

(** The pair the stand-in SDK builds from that pool. *)
Definition fetchedPool : Pair.t :=
  Pair.mk (CurrencyAmount.mk Examples.USDC 1000000)
          (CurrencyAmount.mk Examples.USDT 950000) 0 0 None
          (Fraction.mk 1 1) (Fraction.mk 1 1).

(** An SDK whose token constructor asks for decimals from 0 to 254, which
    orders tokens by address, and whose pair constructor stores what it is
    given. *)
#[export] Instance simpleSdk : Fetcher.Sdk := {|
  Fetcher.newToken := λ chainId address number _ _,
    _ ← invariant ((0 <=? number) && (number <? 255)) "DECIMALS";
    Ok (Token.mk chainId address number);
  Fetcher.sortsBefore := λ a b,
    _ ← invariant (Token.chainId a =? Token.chainId b) "CHAIN_IDS";
    _ ← invariant (negb (String.eqb (Token.address a) (Token.address b))) "ADDRESSES";
    Ok (String.ltb (Token.address a) (Token.address b));
  Fetcher.fromRawAmount := λ token raw, Ok (CurrencyAmount.mk token raw);
  Fetcher.getAddress := λ a b curveId, Ok (Token.address a +:+ Token.address b);
  Fetcher.newPair := λ amountA amountB curveId _ amp,
    Ok (Pair.mk amountA amountB curveId 0 amp (Fraction.mk 1 1) (Fraction.mk 1 1));
  Fetcher.WETH9 := λ chainId,
    if chainId =? Examples.AVALANCHE then Some Examples.WAVAX else None
|}.
End FetcherExamples.

(** ** Calls of [fetchTokenData] to run *)

Module TokenCacheExamples.
Import Fetcher FetcherExamples.

(** A ledger on which every token has eighteen decimals. *)
Definition eighteen : Provider :=
  mkProvider (Some []) (λ _ _ _, Some AddressZero)
    (λ _, None) (λ _, None) (λ _, None) (λ _, Some 18).

(** USDC on Avalanche asked from a ledger that says six decimals, from one
    that says eighteen, and with the ledger out of reach; DGD on the main chain
    with the ledger out of reach. *)
Definition askSix : Request :=
  mkRequest Examples.AVALANCHE (Token.address Examples.USDC) emptyFactory None None.
Definition askEighteen : Request :=
  mkRequest Examples.AVALANCHE (Token.address Examples.USDC) eighteen None None.
Definition askOffline : Request :=
  mkRequest Examples.AVALANCHE (Token.address Examples.USDC) offline None None.
Definition askDGD : Request := mkRequest MAINNET DGD offline None None.

(** Two calls for USDC waiting, the first asked from the ledger that says six
    decimals, the second from the one that says eighteen. *)
Definition twoWaiting : State := run initial [Call askSix; Call askEighteen].
End TokenCacheExamples.

(** ** The router over any [Trade] *)

Module RouterOpen.
(** The two methods of [Trade] that the router calls, as functions of the
    slippage that answer an amount or throw. *)
Record TradeMethods : Type := mkMethods {
  maximumAmountIn : Percent → result (CurrencyAmount.t Currency.t);
  minimumAmountOut : Percent → result (CurrencyAmount.t Currency.t)
}.

Section WithExternals.
Context `{Externals}.

(** [Router.swapCallParameters] with the trade's two methods taken as they
    come: the same statements in the same order, either method free to
    throw. *)
Definition swapCallParameters (methods : TradeMethods) (trade : Trade.t)
    (options : Router.TradeOptions) : result Router.SwapParameters :=
  let etherIn := Currency.isNative (CurrencyAmount.currency (Trade.inputAmount trade)) in
  let etherOut := Currency.isNative (CurrencyAmount.currency (Trade.outputAmount trade)) in
  _ ← invariant (negb (etherIn && etherOut)) "ETHER_IN_OUT";
  let calldatas : list string := [] in
  to ← match validateAndParseAddress (Router.recipient options) with
       | Some checksummed => Ok checksummed
       | None => Err (InvalidAddress (Router.recipient options))
       end;
  maximumIn ← maximumAmountIn methods (Router.allowedSlippage options);
  let amountIn := Router.toHex maximumIn in
  minimumOut ← minimumAmountOut methods (Router.allowedSlippage options);
  let amountOut := Router.toHex minimumOut in
  let path := Token.address <$> Route.path (Trade.route trade) in
  let curveIds := Pair.curveId <$> Route.pairs (Trade.route trade) in
  let value := if etherIn then amountIn else Router.ZERO_HEX in
  let '(methodName, args, calldatas) :=
    match Trade.tradeType trade with
    | EXACT_INPUT =>
        ("swapExactForVariable",
         Router.Positional
           [Router.ArgString amountIn; Router.ArgString amountOut;
            Router.ArgStrings path; Router.ArgNumbers curveIds; Router.ArgString to],
         push calldatas [])
    | EXACT_OUTPUT =>
        ("swapVariableForExact",
         Router.Positional
           [Router.ArgString amountOut; Router.ArgString amountIn;
            Router.ArgStrings path; Router.ArgNumbers curveIds; Router.ArgString to],
         push calldatas [])
    end in
  calldatas ←
    (if etherOut then
       amountMinimum ← Router.JSBI_BigInt amountOut;
       unwrap ← match encodeUnwrapWETH9 amountMinimum (Router.recipient options) with
                | Some calldata => Ok calldata
                | None => Err (InvalidAddress (Router.recipient options))
                end;
       Ok (push calldatas [unwrap])
     else Ok calldatas);
  let '(methodName, args) :=
    if (1 <? length calldatas)%nat
    then ("multicall", Router.Encoded (encodeMulticall calldatas))
    else (methodName, args) in
  Ok (Router.mkParameters methodName args value).

End WithExternals.

(** The swap call on its own, for given amounts: method and positional
    arguments by trade type, and the native value to attach. *)
Definition swapCall (trade : Trade.t) (to : string)
    (maximumIn minimumOut : CurrencyAmount.t Currency.t) : Router.SwapParameters :=
  let etherIn := Currency.isNative (CurrencyAmount.currency (Trade.inputAmount trade)) in
  let amountIn := Router.toHex maximumIn in
  let amountOut := Router.toHex minimumOut in
  let path := Token.address <$> Route.path (Trade.route trade) in
  let curveIds := Pair.curveId <$> Route.pairs (Trade.route trade) in
  let value := if etherIn then amountIn else Router.ZERO_HEX in
  match Trade.tradeType trade with
  | EXACT_INPUT =>
      Router.mkParameters "swapExactForVariable"
        (Router.Positional
           [Router.ArgString amountIn; Router.ArgString amountOut;
            Router.ArgStrings path; Router.ArgNumbers curveIds; Router.ArgString to])
        value
  | EXACT_OUTPUT =>
      Router.mkParameters "swapVariableForExact"
        (Router.Positional
           [Router.ArgString amountOut; Router.ArgString amountIn;
            Router.ArgStrings path; Router.ArgNumbers curveIds; Router.ArgString to])
        value
  end.

(** The methods of a trade as the specification describes them. *)
Definition specified (trade : Trade.t) : TradeMethods :=
  mkMethods (λ slippage, Ok (Trade.maximumAmountIn trade slippage))
            (λ slippage, Ok (Trade.minimumAmountOut trade slippage)).

(** Methods that refuse a negative slippage tolerance before anything
    else. *)
Definition guarded (trade : Trade.t) : TradeMethods :=
  mkMethods
    (λ slippage,
       _ ← invariant (0 <=? Fraction.numerator slippage * Fraction.denominator slippage)
             "SLIPPAGE_TOLERANCE";
       Ok (Trade.maximumAmountIn trade slippage))
    (λ slippage,
       _ ← invariant (0 <=? Fraction.numerator slippage * Fraction.denominator slippage)
             "SLIPPAGE_TOLERANCE";
       Ok (Trade.minimumAmountOut trade slippage)).

Definition negativeSlippage : Percent := Fraction.mk (-1) 100.

(** The route USDC, USDT, native AVAX after its mid price has been read, and
    the trade of [Examples.tradeOut] over that route. *)
Definition pricedRoute : Route.t :=
  RouteSpec.memoized Examples.routeOut
    (Price.mk (Currency.Tok Examples.USDC) Examples.AVAX 1995000000000 2000000000000).
Definition pricedTrade : Trade.t :=
  Trade.mk pricedRoute EXACT_INPUT
           (CurrencyAmount.mk (Currency.Tok Examples.USDC) 1000)
           (CurrencyAmount.mk Examples.AVAX 989).
End RouterOpen.

(** * Properties *)

(** ** The error monad *)

Lemma bind_assoc {A B C : Type} (m : result A) (f : A → result B) (g : B → result C) :
  m ≫= (λ a, f a ≫= g) = (m ≫= f) ≫= g.
Proof. by destruct m. Qed.

(** ** Route construction *)

Section RouteConstruction.
Import RouteSpec.

Lemma entries_from {A : Type} (k : nat) (x : A) (l : list A) :
  zip (seq k (length (x :: l))) (x :: l) = (k, x) :: zip (seq (S k) (length l)) l.
Proof. reflexivity. Qed.

Lemma Chain_head (ps : list Pair.t) (a : Token.t) (ts : list Token.t) :
  Chain a ps ts → ∃ ts', ts = a :: ts'.
Proof. inversion 1; eauto. Qed.

Lemma follow_Chain (ps : list Pair.t) :
  ∀ a ts, follow a ps = Some ts ↔ Chain a ps (a :: ts).
Proof.
  induction ps as [|p ps IH]; intros a ts; simpl.
  - split; [intros [= <-]; constructor | inversion 1; done].
  - split.
    + destruct (Pair.involvesToken p a) eqn:I; [|done].
      destruct (follow (otherToken p a) ps) as [ts'|] eqn:E; simpl; [|done].
      intros [= <-]. econstructor; [done|]. by apply IH.
    + intros C. inversion C as [|? ? b ? ? [I Hb] C']; subst. rewrite I.
      destruct (Chain_head _ _ _ C') as [ts' ->].
      apply IH in C'. by rewrite C'.
Qed.

Lemma Connected_follow (pairs : list Pair.t) (input : Currency.t) :
  Connected pairs input ↔ is_Some (follow (Currency.wrapped input) pairs).
Proof.
  split.
  - intros [ts C]. destruct (Chain_head _ _ _ C) as [ts' ->].
    apply follow_Chain in C. eauto.
  - intros [ts E]. apply follow_Chain in E. by eexists.
Qed.

Lemma Hop_tokens (a b : Token.t) (p : Pair.t) :
  Hop a p b →
  (Token.equals a (Pair.token0 p) = true ∧ b = Pair.token1 p)
  ∨ (Token.equals a (Pair.token1 p) = true ∧ b = Pair.token0 p).
Proof.
  unfold Hop, Pair.involvesToken, otherToken. intros [I ->].
  destruct (Token.equals a (Pair.token0 p)); [by left | by right].
Qed.

Lemma Token_equals_spec (a b : Token.t) :
  Token.equals a b = true
  ↔ Token.chainId a = Token.chainId b ∧ Token.address a = Token.address b.
Proof. unfold Token.equals. by rewrite andb_true_iff, Z.eqb_eq, String.eqb_eq. Qed.

(** A hop leads to any token of the pair other than the one that entered. *)
Lemma Hop_reaches (a b w : Token.t) (p : Pair.t) :
  Hop a p b → Pair.involvesToken p w = true → Token.equals w a = false →
  Token.equals w b = true.
Proof.
  unfold Hop, Pair.involvesToken, otherToken. intros [Ha ->] Hw Hwa.
  assert (∀ t, Token.equals a t = true → Token.equals w t = false) as Hdiff.
  { intros t Hat. destruct (Token.equals w t) eqn:Hwt; [|done].
    apply Token_equals_spec in Hat, Hwt.
    assert (Token.equals w a = true) as Heq
      by (apply Token_equals_spec; destruct Hat, Hwt; split; congruence).
    congruence. }
  destruct (Token.equals a (Pair.token0 p)) eqn:E0.
  - rewrite (Hdiff _ E0) in Hw. done.
  - simpl in Ha. rewrite (Hdiff _ Ha), orb_false_r in Hw. done.
Qed.

Lemma Chain_length (ps : list Pair.t) (a : Token.t) (ts : list Token.t) :
  Chain a ps ts → length ts = S (length ps).
Proof. induction 1; simpl; [done | by f_equal]. Qed.

Lemma Chain_lookup (ps : list Pair.t) (a : Token.t) (ts : list Token.t) :
  Chain a ps ts →
  ∀ (i : nat) (p : Pair.t), ps !! i = Some p →
    ∃ x y, ts !! i = Some x ∧ ts !! S i = Some y ∧ Hop x p y.
Proof.
  induction 1 as [a | a p b ps ts Hhop Hchain IH]; intros i q Hq; [done|].
  destruct i as [|i]; simpl in Hq.
  - injection Hq as <-. destruct (Chain_head _ _ _ Hchain) as [ts' ->].
    by exists a, b.
  - destruct (IH i q Hq) as (x & y & Hx & Hy & Hxy). by exists x, y.
Qed.

(** The last hop of a chain: the token before last enters the last pair and
    the last token leaves it. *)
Lemma Chain_last (ps : list Pair.t) (a : Token.t) (ts : list Token.t) :
  Chain a ps ts →
  ∀ p, last ps = Some p →
    ∃ x e, ts !! (length ps - 1)%nat = Some x ∧ last ts = Some e ∧ Hop x p e.
Proof.
  intros Hchain p Hp.
  rewrite last_lookup in Hp.
  replace (pred (length ps)) with (length ps - 1)%nat in Hp by lia.
  destruct (Chain_lookup _ _ _ Hchain _ _ Hp) as (x & e & Hx & He & Hhop).
  exists x, e. split_and!; [done | | done].
  rewrite last_lookup, (Chain_length _ _ _ Hchain).
  assert (length ps ≠ 0%nat) by (destruct ps; [done | simpl; lia]).
  by replace (pred (S (length ps))) with (S (length ps - 1)) by lia.
Qed.

(** The loop of the constructor appends to [path] the tokens met along the
    pairs, or stops at the first hop that does not connect. *)
Lemma constructor_loop_follow (ps : list Pair.t) :
  ∀ (k : nat) (path : list Token.t) (a : Token.t),
    length path = S k → path !! k = Some a →
    Route.constructor_loop (zip (seq k (length ps)) ps) path =
      match follow a ps with
      | Some ts => Ok (path ++ ts)
      | None => Err DisconnectedPath
      end.
Proof.
  induction ps as [|p ps IH]; intros k path a Hlen Hk.
  - simpl. by rewrite app_nil_r.
  - rewrite entries_from. simpl. rewrite Hk. simpl.
    fold (Pair.involvesToken p a).
    destruct (Pair.involvesToken p a) eqn:I; simpl; [|done].
    fold (otherToken p a). unfold push.
    rewrite (IH (S k) (path ++ [otherToken p a]) (otherToken p a)).
    + destruct (follow (otherToken p a) ps) as [ts|]; simpl; [|done].
      by rewrite <- app_assoc.
    + rewrite length_app. simpl. lia.
    + rewrite lookup_app_r by lia. by replace (S k - length path)%nat with 0%nat by lia.
Qed.

Lemma SameChain_forallb (first : Pair.t) (rest : list Pair.t) :
  forallb (λ p, Pair.chainId p =? Pair.chainId first) (first :: rest) = true
  ↔ SameChain (first :: rest).
Proof.
  rewrite forallb_forall. split.
  - intros Hall p q Hp Hq.
    apply list_elem_of_In, Hall, Z.eqb_eq in Hp.
    apply list_elem_of_In, Hall, Z.eqb_eq in Hq. congruence.
  - intros Hsame p Hp. apply Z.eqb_eq, Hsame; [by apply list_elem_of_In | left].
Qed.

Lemma InputInFirst_cons (first : Pair.t) (rest : list Pair.t) (input : Currency.t) :
  Pair.involvesToken first (Currency.wrapped input) = true
  ↔ InputInFirst (first :: rest) input.
Proof.
  split; [intros I; by exists first | intros (p & [= <-] & I); done].
Qed.

Lemma OutputInLast_None (pairs : list Pair.t) : OutputInLast pairs None.
Proof. intros out [=]. Qed.

Lemma OutputInLast_Some (pairs : list Pair.t) (lastPair : Pair.t) (out : Currency.t) :
  pairs !! (length pairs - 1)%nat = Some lastPair →
  Pair.involvesToken lastPair (Currency.wrapped out) = true
  ↔ OutputInLast pairs (Some out).
Proof.
  intros Hlast.
  assert (last pairs = Some lastPair) as Hl.
  { rewrite last_lookup. by replace (pred (length pairs)) with (length pairs - 1)%nat by lia. }
  split.
  - intros I out' [= <-]. by exists lastPair.
  - intros Hout. destruct (Hout out eq_refl) as (p & Hp & I). congruence.
Qed.

(** The constructor runs its five checks in order and stops at the first
    one that fails; when all pass the route holds the tokens met along the
    pairs. *)
Lemma constructor_cases (pairs : list Pair.t) (input : Currency.t)
    (output : option Currency.t) :
  (pairs = [] ∧ Route.constructor pairs input output = Err EmptyRoute)
  ∨ (NonEmpty pairs ∧ ¬ SameChain pairs
     ∧ Route.constructor pairs input output = Err ChainIdMismatch)
  ∨ (NonEmpty pairs ∧ SameChain pairs ∧ ¬ InputInFirst pairs input
     ∧ Route.constructor pairs input output = Err InputNotInRoute)
  ∨ (NonEmpty pairs ∧ SameChain pairs ∧ InputInFirst pairs input
     ∧ ¬ OutputInLast pairs output
     ∧ Route.constructor pairs input output = Err OutputNotInRoute)
  ∨ (NonEmpty pairs ∧ SameChain pairs ∧ InputInFirst pairs input
     ∧ OutputInLast pairs output ∧ ¬ Connected pairs input
     ∧ Route.constructor pairs input output = Err DisconnectedPath)
  ∨ (NonEmpty pairs ∧ SameChain pairs ∧ InputInFirst pairs input
     ∧ OutputInLast pairs output ∧ Connected pairs input
     ∧ ∃ ts, follow (Currency.wrapped input) pairs = Some ts
         ∧ Route.constructor pairs input output =
             Ok (Route.mk pairs (Currency.wrapped input :: ts) input output None)).
Proof.
  destruct pairs as [|first rest]; [by left|]. right.
  assert (NonEmpty (first :: rest)) as Hne by done.
  unfold Route.constructor.
  replace (0 <? length (first :: rest))%nat with true by done.
  cbn [invariant mbind result_bind lookup list_lookup defined].
  pose proof (SameChain_forallb first rest) as Hchain.
  destruct (forallb _ (first :: rest)).
  2: { left. split_and!; [done| |done]. intros S. by apply Hchain in S. }
  assert (SameChain (first :: rest)) as Hsame by by apply Hchain.
  right. cbn [invariant mbind result_bind].
  pose proof (InputInFirst_cons first rest input) as Hin.
  destruct (Pair.involvesToken first (Currency.wrapped input)).
  2: { left. split_and!; [done|done| |done]. intros I. by apply Hin in I. }
  assert (InputInFirst (first :: rest) input) as Hinput by by apply Hin.
  right. cbn [invariant mbind result_bind].
  assert (∃ lastPair, (first :: rest) !! (length (first :: rest) - 1)%nat = Some lastPair)
    as [lastPair Hlast].
  { apply lookup_lt_is_Some. simpl. lia. }
  assert ((match output with
           | None => Ok true
           | Some out =>
               lastPair ← defined ((first :: rest) !! (length (first :: rest) - 1)%nat);
               Ok (Pair.involvesToken lastPair (Currency.wrapped out))
           end) = Ok (match output with
                      | None => true
                      | Some out => Pair.involvesToken lastPair (Currency.wrapped out)
                      end)) as ->.
  { destruct output; [|done]. by rewrite Hlast. }
  cbn [mbind result_bind].
  assert ((match output with
           | None => true
           | Some out => Pair.involvesToken lastPair (Currency.wrapped out)
           end) = true ↔ OutputInLast (first :: rest) output) as Hout.
  { destruct output as [out|]; [by apply OutputInLast_Some|].
    split; [intros _; apply OutputInLast_None | done]. }
  destruct (match output with None => true | Some _ => _ end).
  2: { left. split_and!; [done|done|done| |done]. intros O. by apply Hout in O. }
  assert (OutputInLast (first :: rest) output) as Houtput by by apply Hout.
  right. cbn [invariant mbind result_bind].
  unfold entries.
  rewrite (constructor_loop_follow (first :: rest) 0 [Currency.wrapped input]
             (Currency.wrapped input)) by done.
  pose proof (Connected_follow (first :: rest) input) as Hconn.
  destruct (follow (Currency.wrapped input) (first :: rest)) as [ts|].
  - right. split_and!; try done; [apply Hconn; eauto|]. by exists ts.
  - left. split_and!; try done. intros C. apply Hconn in C. by destruct C.
Qed.

End RouteConstruction.

Section RouteClaims.
Import RouteSpec.

Local Ltac unfold_errors :=
  unfold EmptyRoute, ChainIdMismatch, InputNotInRoute, OutputNotInRoute,
    DisconnectedPath in *.

(** C5.  The Route constructor validates, in this order, that the list of
    pairs is non-empty, that all pairs share one chain id, that the wrapped
    input token is in the first pair, that the output token (when one is
    given) is in the last pair, and that every pair connects to the token that
    left its predecessor.  The first violated check decides the named error
    that is raised; no other error can be raised, and a route is returned
    exactly when all checks pass, so no partial route comes out of a failed
    construction. *)
Theorem constructor_validates_in_order (pairs : list Pair.t) (input : Currency.t)
    (output : option Currency.t) :
  let built := Route.constructor pairs input output in
  (built = Err EmptyRoute ↔ pairs = [])
  ∧ (built = Err ChainIdMismatch ↔ NonEmpty pairs ∧ ¬ SameChain pairs)
  ∧ (built = Err InputNotInRoute
     ↔ NonEmpty pairs ∧ SameChain pairs ∧ ¬ InputInFirst pairs input)
  ∧ (built = Err OutputNotInRoute
     ↔ NonEmpty pairs ∧ SameChain pairs ∧ InputInFirst pairs input
       ∧ ¬ OutputInLast pairs output)
  ∧ (built = Err DisconnectedPath
     ↔ NonEmpty pairs ∧ SameChain pairs ∧ InputInFirst pairs input
       ∧ OutputInLast pairs output ∧ ¬ Connected pairs input)
  ∧ ((∃ r, built = Ok r)
     ↔ NonEmpty pairs ∧ SameChain pairs ∧ InputInFirst pairs input
       ∧ OutputInLast pairs output ∧ Connected pairs input)
  ∧ (∀ e, built = Err e →
       e ∈ [EmptyRoute; ChainIdMismatch; InputNotInRoute; OutputNotInRoute;
            DisconnectedPath]).
Proof.
  intros built. subst built. unfold NonEmpty.
  destruct (constructor_cases pairs input output)
    as [(Hempty & E) | [(Hne & Hchain & E) | [(Hne & Hchain & Hin & E)
       | [(Hne & Hchain & Hin & Hout & E) | [(Hne & Hchain & Hin & Hout & Hconn & E)
       | (Hne & Hchain & Hin & Hout & Hconn & ts & _ & E)]]]]];
    rewrite E; unfold_errors; unfold NonEmpty in *;
    split_and!;
    try (split; [intros Heq; first [discriminate Heq | by destruct Heq | done | eauto]
                | intros; first [done | by eauto | exfalso; tauto]]);
    intros e Heq; first [discriminate Heq | injection Heq as <-];
    rewrite !elem_of_cons; tauto.
Qed.

(** C6, as amended.  The path of a successfully constructed route has
    length [pairs.length + 1] and begins with the wrapped input token; at every
    hop [i] the token [path[i]] is one of the two tokens of pair [i] and
    [path[i+1]] is the other one; the path is thus a connected chain that
    starts at the wrapped input token and ends at a token of the last pair.
    That last token is the output token whenever the output token is not the
    one that enters the last hop. *)
Theorem path_is_connected_chain (pairs : list Pair.t) (input : Currency.t)
    (output : option Currency.t) (r : Route.t) :
  Route.constructor pairs input output = Ok r →
  Route.pairs r = pairs
  ∧ length (Route.path r) = S (length pairs)
  ∧ head (Route.path r) = Some (Currency.wrapped input)
  ∧ (∀ (i : nat) (p : Pair.t), pairs !! i = Some p →
       ∃ a b, Route.path r !! i = Some a ∧ Route.path r !! S i = Some b
         ∧ ((Token.equals a (Pair.token0 p) = true ∧ b = Pair.token1 p)
            ∨ (Token.equals a (Pair.token1 p) = true ∧ b = Pair.token0 p)))
  ∧ Chain (Currency.wrapped input) pairs (Route.path r)
  ∧ (∃ p x e, last pairs = Some p
       ∧ Route.path r !! (length pairs - 1)%nat = Some x
       ∧ last (Route.path r) = Some e
       ∧ (e = Pair.token0 p ∨ e = Pair.token1 p)
       ∧ ∀ out, output = Some out →
           Token.equals (Currency.wrapped out) x = false →
           Token.equals (Currency.wrapped out) e = true).
Proof.
  intros Hbuilt.
  destruct (constructor_cases pairs input output)
    as [(_ & E) | [(_ & _ & E) | [(_ & _ & _ & E) | [(_ & _ & _ & _ & E)
       | [(_ & _ & _ & _ & _ & E) | (Hne & _ & _ & Hout & _ & ts & Hts & E)]]]]];
    rewrite E in Hbuilt; try discriminate Hbuilt.
  injection Hbuilt as <-. simpl.
  apply follow_Chain in Hts.
  split_and!; [done | by apply Chain_length in Hts | done | | done |].
  - intros i p Hp.
    destruct (Chain_lookup _ _ _ Hts i p Hp) as (a & b & Ha & Hb & Hhop).
    exists a, b. split_and!; [done | done | by apply Hop_tokens].
  - destruct (last pairs) as [p|] eqn:Hlast.
    + destruct (Chain_last _ _ _ Hts p Hlast) as (x & e & Hx & He & Hhop).
      exists p, x, e. split_and!; [done | done | done | |].
      * destruct (Hop_tokens _ _ _ Hhop) as [[_ ->] | [_ ->]]; [by right | by left].
      * intros out Hsome Hdiff. destruct (Hout out Hsome) as (q & Hq & Hin).
        rewrite Hlast in Hq. injection Hq as <-. by apply (Hop_reaches x e _ p).
    + apply last_None in Hlast. done.
Qed.

(** The path of the two-hop route USDC, USDT, WAVAX. *)
Lemma path_is_connected_chain_witness :
  Route.constructor [Examples.pool1; Examples.pool2]
    (Currency.Tok Examples.USDC) (Some Examples.AVAX) = Ok Examples.routeOut
  ∧ length (Route.path Examples.routeOut) = 3%nat
  ∧ head (Route.path Examples.routeOut) = Some Examples.USDC.
Proof.
  split; [reflexivity|].
  pose proof (path_is_connected_chain [Examples.pool1; Examples.pool2]
                (Currency.Tok Examples.USDC) (Some Examples.AVAX) Examples.routeOut
                eq_refl) as (_ & Hlen & Hhead & _).
  exact (conj Hlen Hhead).
Defined.

(** C6, as stated, also ends the chain at the output token.  The constructor
    only checks that the last pair contains the output: a route over the one
    pool USDC/USDT from USDC to USDC is accepted and its path ends at USDT. *)
Lemma path_end_is_not_output :
  Route.constructor [Examples.pool1] (Currency.Tok Examples.USDC)
    (Some (Currency.Tok Examples.USDC)) = Ok Examples.routeBack
  ∧ Route.output Examples.routeBack = Some (Currency.Tok Examples.USDC)
  ∧ last (Route.path Examples.routeBack) = Some Examples.USDT
  ∧ Token.equals Examples.USDT (Currency.wrapped (Currency.Tok Examples.USDC)) = false.
Proof. by split_and!. Qed.

(** C9.  The check that the output is in the last pair runs only for a
    defined output: whenever the pairs and the input pass the other
    validations, the constructor called with an undefined output returns a
    route, and the output of that route is undefined. *)
Theorem constructor_accepts_undefined_output (pairs : list Pair.t)
    (input : Currency.t) :
  NonEmpty pairs → SameChain pairs → InputInFirst pairs input →
  Connected pairs input →
  ∃ r, Route.constructor pairs input None = Ok r
    ∧ Route.output r = None
    ∧ Route.pairs r = pairs
    ∧ Route.input r = input.
Proof.
  intros Hne Hchain Hin Hconn.
  destruct (constructor_cases pairs input None)
    as [(Hempty & _) | [(_ & Hn & _) | [(_ & _ & Hn & _) | [(_ & _ & _ & Hn & _)
       | [(_ & _ & _ & _ & Hn & _) | (_ & _ & _ & _ & _ & ts & _ & E)]]]]];
    try done.
  - exfalso. apply Hn, OutputInLast_None.
  - rewrite E. by eexists.
Qed.

(** The pool USDC/USDT entered with USDC and no output. *)
Lemma constructor_accepts_undefined_output_witness :
  ∃ r, Route.constructor [Examples.pool1] (Currency.Tok Examples.USDC) None = Ok r
    ∧ Route.output r = None
    ∧ Route.pairs r = [Examples.pool1]
    ∧ Route.input r = Currency.Tok Examples.USDC.
Proof.
  apply constructor_accepts_undefined_output.
  - done.
  - apply SameChain_forallb. reflexivity.
  - apply InputInFirst_cons. reflexivity.
  - apply Connected_follow. vm_compute. eauto.
Defined.

End RouteClaims.

(** ** Mid price *)

Section MidPrice.
Import RouteSpec.

Lemma knownCurve_spec (p : Pair.t) : knownCurve p = true ↔ KnownCurve p.
Proof. unfold knownCurve, KnownCurve. rewrite orb_true_iff, !Z.eqb_eq. done. Qed.

Lemma knownCurve_Forall (ps : list Pair.t) :
  forallb knownCurve ps = true ↔ Forall KnownCurve ps.
Proof.
  rewrite forallb_forall, Forall_forall. split.
  - intros Hall p Hp. by apply knownCurve_spec, Hall, list_elem_of_In.
  - intros Hall p Hp. by apply knownCurve_spec, Hall, list_elem_of_In.
Qed.

(** The helper is defined exactly on the two known curves. *)
Lemma getPrice_known (a : Token.t) (p : Pair.t) :
  knownCurve p = true → Route._getPrice (Some a) p = Ok (Some (hopPrice p a)).
Proof.
  unfold knownCurve, Route._getPrice, hopPrice, spotPrice, enteringToken, otherToken,
    Pair.token0Price, Pair.token1Price, Pair.token0, Pair.token1, Price.new.
  intros Hk. destruct (Pair.curveId p =? 0); simpl.
  - by destruct (Token.equals a _).
  - simpl in Hk. rewrite Hk. simpl. by destruct (Token.equals a _).
Qed.

Lemma getPrice_unknown (token : option Token.t) (p : Pair.t) :
  knownCurve p = false → Route._getPrice token p = Ok None.
Proof.
  unfold knownCurve, Route._getPrice. intros Hk.
  apply orb_false_iff in Hk as [-> ->]. done.
Qed.

Lemma getPrice_hopPriceOption (a : Token.t) (p : Pair.t) :
  Route._getPrice (Some a) p = Ok (if knownCurve p then Some (hopPrice p a) else None).
Proof.
  destruct (knownCurve p) eqn:Hk; [by apply getPrice_known | by apply getPrice_unknown].
Qed.

(** The first loop of [midPrice] collects the price of every hop. *)
Lemma midPrice_loop_hops (ps : list Pair.t) :
  ∀ (k : nat) (pre ts : list Token.t) (a : Token.t) (prices : list (option Price.t)),
    length pre = k → follow a ps = Some ts →
    Route.midPrice_loop (pre ++ a :: ts) (zip (seq k (length ps)) ps) prices =
      Ok (prices ++ hopPriceOptions a ps).
Proof.
  induction ps as [|p ps IH]; intros k pre ts a prices Hk Hts.
  - simpl. by rewrite app_nil_r.
  - rewrite entries_from. simpl in Hts |- *.
    destruct (Pair.involvesToken p a); [|done].
    destruct (follow (otherToken p a) ps) as [ts'|] eqn:E; [|done].
    injection Hts as <-.
    rewrite lookup_app_r by lia. replace (k - length pre)%nat with 0%nat by lia.
    cbn [lookup list_lookup]. rewrite getPrice_hopPriceOption. cbn [mbind result_bind].
    unfold push.
    replace (pre ++ a :: otherToken p a :: ts')
      with ((pre ++ [a]) ++ otherToken p a :: ts') by by rewrite <- app_assoc.
    rewrite (IH (S k) (pre ++ [a]) ts' (otherToken p a)); [| rewrite length_app; simpl; lia | done].
    by rewrite <- app_assoc.
Qed.

(** A hop price can be multiplied onto a price that is quoted in the token
    entering the hop. *)
Lemma multiply_hop (acc : Price.t) (p : Pair.t) (a : Token.t) :
  Pair.involvesToken p a = true →
  Price.quoteCurrency acc = Currency.Tok a →
  Price.multiply acc (hopPrice p a) =
    Ok (Price.mk (Price.baseCurrency acc) (Currency.Tok (otherToken p a))
                 (Price.numerator acc * Fraction.numerator (spotPrice p a))
                 (Price.denominator acc * Fraction.denominator (spotPrice p a))).
Proof.
  intros Hin Hq. unfold Price.multiply. rewrite Hq.
  assert (Currency.equals (Currency.Tok a) (Price.baseCurrency (hopPrice p a)) = true) as ->.
  { unfold hopPrice, enteringToken, Pair.involvesToken in *. simpl.
    destruct (Token.equals a (Pair.token0 p)) eqn:E0; [done|]. by simpl in Hin. }
  reflexivity.
Qed.

Lemma multiply_step_hop (acc : Price.t) (p : Pair.t) (a : Token.t) :
  Pair.involvesToken p a = true →
  Price.quoteCurrency acc = Currency.Tok a →
  Route.multiply_step (Some acc) (Some (hopPrice p a)) =
    Ok (Some (Price.mk (Price.baseCurrency acc) (Currency.Tok (otherToken p a))
                 (Price.numerator acc * Fraction.numerator (spotPrice p a))
                 (Price.denominator acc * Fraction.denominator (spotPrice p a)))).
Proof.
  intros Hin Hq. unfold Route.multiply_step. cbn [defined mbind result_bind].
  by rewrite (multiply_hop acc p a Hin Hq).
Qed.

Lemma reduce_undefined (l : list (option Price.t)) :
  Route.reduce Route.multiply_step l None ≫= defined = Err TypeError.
Proof. by destruct l. Qed.

(** Folding [multiply] over the prices of the remaining hops: the numerators
    and the denominators are multiplied in path order, and an undefined price
    ends the fold with a type error. *)
Lemma reduce_hops (ps : list Pair.t) :
  ∀ (a : Token.t) (ts : list Token.t) (acc : Price.t),
    follow a ps = Some ts → Price.quoteCurrency acc = Currency.Tok a →
    Route.reduce Route.multiply_step (hopPriceOptions a ps) (Some acc) ≫= defined =
      if forallb knownCurve ps
      then Ok (Price.mk (Price.baseCurrency acc)
                 (Currency.Tok (default a (last ts)))
                 (Price.numerator acc
                  * product (Fraction.numerator <$> hopSpotPrices a ps))
                 (Price.denominator acc
                  * product (Fraction.denominator <$> hopSpotPrices a ps)))
      else Err TypeError.
Proof.
  induction ps as [|p ps IH]; intros a ts acc Hts Hq.
  - injection Hts as <-. simpl. unfold product. simpl. rewrite !Z.mul_1_r.
    rewrite <- Hq. by destruct acc.
  - simpl in Hts.
    destruct (Pair.involvesToken p a) eqn:Hin; [|done].
    destruct (follow (otherToken p a) ps) as [ts'|] eqn:E; [|done].
    injection Hts as <-.
    cbn [hopPriceOptions hopSpotPrices forallb Route.reduce].
    destruct (knownCurve p); [|done].
    rewrite (multiply_step_hop acc p a Hin Hq). cbn [mbind result_bind].
    erewrite IH; [| exact E | reflexivity].
    cbn [andb Price.baseCurrency Price.numerator Price.denominator].
    destruct (forallb knownCurve ps); [|done].
    f_equal. f_equal.
    + destruct ts' as [|t ts'']; [done|].
      change (last (otherToken p a :: t :: ts'')) with (last (t :: ts'')).
      destruct (last (t :: ts'')) eqn:L; [done | by apply last_None in L].
    + rewrite fmap_cons. unfold product. simpl. lia.
    + rewrite fmap_cons. unfold product. simpl. lia.
Qed.

(** What [midPrice] answers on a route that has just been constructed. *)
Lemma midPrice_fresh (pairs : list Pair.t) (input : Currency.t)
    (output : option Currency.t) (ts : list Token.t) :
  pairs ≠ [] →
  follow (Currency.wrapped input) pairs = Some ts →
  let r := Route.mk pairs (Currency.wrapped input :: ts) input output None in
  Route.midPrice r =
    if forallb knownCurve pairs
    then match output with
         | Some out =>
             Ok (composedPrice pairs input out, memoized r (composedPrice pairs input out))
         | None => Err TypeError
         end
    else Err TypeError.
Proof.
  intros Hne Hts r. subst r. unfold Route.midPrice, entries.
  cbn [Route._midPrice Route.path Route.pairs Route.input Route.output].
  pose proof (midPrice_loop_hops pairs 0 [] ts (Currency.wrapped input) [] eq_refl Hts)
    as Hloop.
  cbn [app] in Hloop. rewrite Hloop. clear Hloop.
  cbn [mbind result_bind].
  destruct pairs as [|p rest]; [done|]. simpl in Hts.
  destruct (Pair.involvesToken p (Currency.wrapped input)) eqn:Hin; [|done].
  destruct (follow (otherToken p (Currency.wrapped input)) rest) as [ts'|] eqn:E; [|done].
  injection Hts as <-.
  cbn [hopPriceOptions lookup list_lookup mjoin option_join drop forallb].
  rewrite bind_assoc, drop_0.
  destruct (knownCurve p); cbn [andb].
  - erewrite reduce_hops; [| exact E | reflexivity].
    destruct (forallb knownCurve rest); [|done].
    cbn [mbind result_bind]. destruct output as [out|]; [|done].
    cbn [defined mbind result_bind]. unfold composedPrice, memoized, Price.new.
    cbn [hopSpotPrices Price.numerator Price.denominator hopPrice
         Route.pairs Route.path Route.input Route.output].
    rewrite !fmap_cons. reflexivity.
  - by rewrite reduce_undefined.
Qed.

(** On a constructed route [midPrice] either answers the composed price or
    raises a type error. *)
Lemma midPrice_constructed (pairs : list Pair.t) (input : Currency.t)
    (output : option Currency.t) (r : Route.t) :
  Route.constructor pairs input output = Ok r →
  Route.midPrice r =
    if forallb knownCurve pairs
    then match output with
         | Some out =>
             Ok (composedPrice pairs input out, memoized r (composedPrice pairs input out))
         | None => Err TypeError
         end
    else Err TypeError.
Proof.
  intros Hbuilt.
  destruct (constructor_cases pairs input output)
    as [(_ & E) | [(_ & _ & E) | [(_ & _ & _ & E) | [(_ & _ & _ & _ & E)
       | [(_ & _ & _ & _ & _ & E) | (Hne & _ & _ & _ & _ & ts & Hts & E)]]]]];
    rewrite E in Hbuilt; try discriminate Hbuilt.
  injection Hbuilt as <-. by apply midPrice_fresh.
Qed.

(** C7.  On a constructed route with an output token whose pairs all have a
    known curve, [midPrice] returns the product, taken in path order, of the
    spot prices of the hops, each oriented from the token entering the hop to
    the token leaving it, expressed as a price of the route's input in terms of
    its output; the value is memoized.  For a two-hop route this is the price
    of the first hop multiplied by the price of the second, re-expressed
    between the route's input and output. *)
Theorem midPrice_is_product_of_hop_prices (pairs : list Pair.t)
    (input output : Currency.t) (r : Route.t) :
  Route.constructor pairs input (Some output) = Ok r →
  Forall KnownCurve pairs →
  let price := composedPrice pairs input output in
  Route.midPrice r = Ok (price, memoized r price)
  ∧ Route.midPrice (memoized r price) = Ok (price, memoized r price)
  ∧ Price.baseCurrency price = input
  ∧ Price.quoteCurrency price = output
  ∧ (∀ p1 p2, pairs = [p1; p2] →
       ∃ priceHop1 priceHop2 composed,
         Route._getPrice (Route.path r !! 0%nat) p1 = Ok (Some priceHop1)
         ∧ Route._getPrice (Route.path r !! 1%nat) p2 = Ok (Some priceHop2)
         ∧ Price.multiply priceHop1 priceHop2 = Ok composed
         ∧ price = Price.new input output
                     (Price.denominator composed) (Price.numerator composed)).
Proof.
  intros Hbuilt Hknown price.
  pose proof (midPrice_constructed _ _ _ _ Hbuilt) as Hmid.
  apply knownCurve_Forall in Hknown as Hall. rewrite Hall in Hmid.
  split_and!; [done | done | done | done |].
  intros p1 p2 ->.
  destruct (constructor_cases [p1; p2] input (Some output))
    as [(_ & E) | [(_ & _ & E) | [(_ & _ & _ & E) | [(_ & _ & _ & _ & E)
       | [(_ & _ & _ & _ & _ & E) | (_ & _ & _ & _ & _ & ts & Hts & E)]]]]];
    rewrite E in Hbuilt; try discriminate Hbuilt.
  injection Hbuilt as <-. simpl in Hts.
  destruct (Pair.involvesToken p1 (Currency.wrapped input)) eqn:Hin1; [|done].
  destruct (Pair.involvesToken p2 (otherToken p1 (Currency.wrapped input))) eqn:Hin2;
    [|done].
  injection Hts as <-.
  apply Forall_cons in Hknown as [Hk1 Hknown]. apply Forall_cons in Hknown as [Hk2 _].
  apply knownCurve_spec in Hk1, Hk2.
  eexists _, _, _. cbn [Route.path lookup list_lookup].
  split_and!.
  - by apply getPrice_known.
  - by apply getPrice_known.
  - by apply multiply_hop.
  - subst price. unfold composedPrice, Price.new, product. simpl. f_equal; lia.
Qed.

(** The mid price of the route USDC, USDT, WAVAX over pools holding
    1,000,000 / 950,000 and 2,000,000 / 2,100,000. *)
Lemma midPrice_is_product_of_hop_prices_witness :
  Route.constructor [Examples.pool1; Examples.pool2]
    (Currency.Tok Examples.USDC) (Some (Currency.Tok Examples.WAVAX))
    = Ok Examples.route12
  ∧ ∃ after,
      Route.midPrice Examples.route12 =
        Ok (Price.mk (Currency.Tok Examples.USDC) (Currency.Tok Examples.WAVAX)
                     (950000 * 2100000) (1000000 * 2000000), after).
Proof.
  split; [reflexivity|].
  eexists.
  refine (proj1 (midPrice_is_product_of_hop_prices
                   [Examples.pool1; Examples.pool2]
                   (Currency.Tok Examples.USDC) (Currency.Tok Examples.WAVAX)
                   Examples.route12 eq_refl _)).
  repeat constructor.
Defined.

(** C10.  The per-hop price helper is partial over the curve id: on a pair
    whose curve id is neither 0 nor 1 it returns an undefined price, and
    [midPrice] of a constructed route containing such a pair fails with a type
    error, which is none of the named errors.  [midPrice] therefore returns a
    price only when every pair has curve id 0 or 1, and it never raises a
    named error. *)
Theorem midPrice_partial_over_curveId (pairs : list Pair.t) (input : Currency.t)
    (output : option Currency.t) (r : Route.t) :
  Route.constructor pairs input output = Ok r →
  (∀ p, p ∈ pairs → ¬ KnownCurve p →
     (∀ token, Route._getPrice token p = Ok None)
     ∧ Route.midPrice r = Err TypeError)
  ∧ (∀ answer, Route.midPrice r = Ok answer → Forall KnownCurve pairs)
  ∧ (∀ e, Route.midPrice r = Err e → e = TypeError ∧ e ∉ namedErrors).
Proof.
  intros Hbuilt.
  pose proof (midPrice_constructed _ _ _ _ Hbuilt) as Hmid.
  assert (TypeError ∉ namedErrors) as Hnot.
  { unfold namedErrors, ChainIdMismatch, InvalidToken, EmptyRoute, DisconnectedPath,
      InputNotInRoute, OutputNotInRoute, NativeInNativeOut.
    rewrite !not_elem_of_cons. split_and!; try done. apply not_elem_of_nil. }
  split_and!.
  - intros p Hp Hunknown.
    assert (knownCurve p = false) as Hk.
    { destruct (knownCurve p) eqn:Hk; [|done]. by apply knownCurve_spec in Hk. }
    split; [intros token; by apply getPrice_unknown|].
    assert (forallb knownCurve pairs = false) as Hall.
    { destruct (forallb knownCurve pairs) eqn:Hall; [|done].
      rewrite forallb_forall in Hall. apply list_elem_of_In, Hall in Hp. congruence. }
    by rewrite Hall in Hmid.
  - intros answer Hanswer. apply knownCurve_Forall.
    destruct (forallb knownCurve pairs); [done|]. congruence.
  - intros e He. rewrite He in Hmid.
    assert (e = TypeError) as ->; [|done].
    destruct (forallb knownCurve pairs); [destruct output|]; congruence.
Qed.

(** A route over one pool whose curve id is 2. *)
Lemma midPrice_partial_over_curveId_witness :
  Route.constructor [Examples.oddPool] (Currency.Tok Examples.USDT)
    (Some (Currency.Tok Examples.WAVAX)) = Ok Examples.oddRoute
  ∧ Route._getPrice (Some Examples.USDT) Examples.oddPool = Ok None
  ∧ Route.midPrice Examples.oddRoute = Err TypeError.
Proof.
  split; [reflexivity|].
  pose proof (midPrice_partial_over_curveId [Examples.oddPool]
                (Currency.Tok Examples.USDT) (Some (Currency.Tok Examples.WAVAX))
                Examples.oddRoute eq_refl) as (Hodd & _ & _).
  destruct (Hodd Examples.oddPool) as [Hhelper Hmid].
  - apply list_elem_of_here.
  - intros [H0 | H1]; [discriminate H0 | discriminate H1].
  - exact (conj (Hhelper (Some Examples.USDT)) Hmid).
Defined.

End MidPrice.

(** ** Router *)

Section RouterClaims.
Context `{Externals}.
Import Router.

(** Hexadecimal text read back by [JSBI.BigInt] gives the amount it was
    written from. *)
Lemma BigInt_toHex (currencyAmount : CurrencyAmount.t Currency.t) :
  0 ≤ CurrencyAmount.quotient currencyAmount →
  JSBI_BigInt (toHex currencyAmount) = Ok (CurrencyAmount.quotient currencyAmount).
Proof.
  intros Hq. unfold toHex, toString16, JSBI_BigInt.
  destruct (CurrencyAmount.quotient currencyAmount) as [|q|q] eqn:E; [done| |lia].
  change ("0x" +:+ ?s) with (String "0"%char (String "x"%char s)).
  cbv beta iota. rewrite NilZero.usu.
  - by rewrite Unsigned.of_to.
  - intros Hnil. pose proof (Unsigned.of_to (Z.to_N (Z.pos q))) as Hback.
    rewrite Hnil in Hback. done.
Qed.

(** Every successful call returns the plain swap call: the list of encoded
    calls holds at most the unwrap call, so the batched method is never
    selected. *)
Lemma swapCallParameters_Ok (trade : Trade.t) (options : TradeOptions)
    (r : SwapParameters) :
  swapCallParameters trade options = Ok r →
  let etherIn := Currency.isNative (CurrencyAmount.currency (Trade.inputAmount trade)) in
  let etherOut := Currency.isNative (CurrencyAmount.currency (Trade.outputAmount trade)) in
  let amountIn := toHex (Trade.maximumAmountIn trade (allowedSlippage options)) in
  let amountOut := toHex (Trade.minimumAmountOut trade (allowedSlippage options)) in
  let path := Token.address <$> Route.path (Trade.route trade) in
  let curveIds := Pair.curveId <$> Route.pairs (Trade.route trade) in
  ∃ to, validateAndParseAddress (recipient options) = Some to
    ∧ etherIn && etherOut = false
    ∧ value r = (if etherIn then amountIn else ZERO_HEX)
    ∧ match Trade.tradeType trade with
      | EXACT_INPUT =>
          methodName r = "swapExactForVariable"
          ∧ args r = Positional [ArgString amountIn; ArgString amountOut;
                                 ArgStrings path; ArgNumbers curveIds; ArgString to]
      | EXACT_OUTPUT =>
          methodName r = "swapVariableForExact"
          ∧ args r = Positional [ArgString amountOut; ArgString amountIn;
                                 ArgStrings path; ArgNumbers curveIds; ArgString to]
      end.
Proof.
  unfold swapCallParameters.
  destruct (Currency.isNative (CurrencyAmount.currency (Trade.inputAmount trade)));
    destruct (Currency.isNative (CurrencyAmount.currency (Trade.outputAmount trade)));
    cbn [negb andb invariant mbind result_bind]; try discriminate;
    destruct (validateAndParseAddress (recipient options)) as [to|];
    cbn [mbind result_bind]; try discriminate;
    destruct (Trade.tradeType trade);
    cbn [push app length mbind result_bind];
    try (destruct (JSBI_BigInt _) as [amountMinimum|]; cbn [mbind result_bind];
         try discriminate;
         destruct (encodeUnwrapWETH9 _ _) as [unwrap|]; cbn [mbind result_bind];
         try discriminate);
    cbn [push app length Nat.ltb Nat.leb];
    intros Hr; injection Hr as <-; exists to; done.
Qed.

Lemma BigInt_Err (s : string) (e : Error) : JSBI_BigInt s = Err e → e = SyntaxError.
Proof.
  unfold JSBI_BigInt. intros Herr.
  repeat match type of Herr with
         | match ?x with _ => _ end = _ => destruct x
         end; congruence.
Qed.

(** The errors a call can raise. *)
Lemma swapCallParameters_Err (trade : Trade.t) (options : TradeOptions) (e : Error) :
  swapCallParameters trade options = Err e →
  (e = NativeInNativeOut
   ∧ Currency.isNative (CurrencyAmount.currency (Trade.inputAmount trade))
     && Currency.isNative (CurrencyAmount.currency (Trade.outputAmount trade)) = true)
  ∨ e = InvalidAddress (recipient options)
  ∨ e = SyntaxError.
Proof.
  unfold swapCallParameters.
  destruct (Currency.isNative (CurrencyAmount.currency (Trade.inputAmount trade)));
    destruct (Currency.isNative (CurrencyAmount.currency (Trade.outputAmount trade)));
    cbn [negb andb invariant mbind result_bind];
    try (intros Herr; injection Herr as <-; by left);
    destruct (validateAndParseAddress (recipient options)) as [to|];
    cbn [mbind result_bind];
    try (intros Herr; injection Herr as <-; right; by left);
    destruct (Trade.tradeType trade);
    cbn [push app length mbind result_bind];
    try (intros Herr; discriminate Herr);
    (destruct (JSBI_BigInt _) as [amountMinimum|e'] eqn:Hbig; cbn [mbind result_bind];
     [| apply BigInt_Err in Hbig as ->; intros Herr; injection Herr as <-; right; by right]);
    (destruct (encodeUnwrapWETH9 _ _) as [unwrap|]; cbn [mbind result_bind];
     [| intros Herr; injection Herr as <-; right; by left]);
    cbn [push app length Nat.ltb Nat.leb]; intros Herr; discriminate Herr.
Qed.

(** The call returns whenever the two currencies are not both native, the
    recipient is a valid address and, for a native output, the minimum output
    is not negative and the unwrap call can be encoded. *)
Lemma swapCallParameters_returns (trade : Trade.t) (options : TradeOptions)
    (to : string) :
  let etherIn := Currency.isNative (CurrencyAmount.currency (Trade.inputAmount trade)) in
  let etherOut := Currency.isNative (CurrencyAmount.currency (Trade.outputAmount trade)) in
  let minimumOut := Trade.minimumAmountOut trade (allowedSlippage options) in
  etherIn && etherOut = false →
  validateAndParseAddress (recipient options) = Some to →
  (etherOut = true →
     0 ≤ CurrencyAmount.quotient minimumOut
     ∧ is_Some (encodeUnwrapWETH9 (CurrencyAmount.quotient minimumOut)
                                  (recipient options))) →
  ∃ r, swapCallParameters trade options = Ok r.
Proof.
  intros etherIn etherOut minimumOut Hnot Hto Hunwrap.
  unfold swapCallParameters. fold etherIn etherOut minimumOut.
  rewrite Hnot, Hto. cbn [negb invariant mbind result_bind].
  destruct etherOut.
  - destruct (Hunwrap eq_refl) as [Hpos [unwrap Hencoded]].
    rewrite (BigInt_toHex minimumOut Hpos). cbn [mbind result_bind].
    rewrite Hencoded. cbn [mbind result_bind].
    destruct (Trade.tradeType trade); by eexists.
  - destruct (Trade.tradeType trade); by eexists.
Qed.

(** C1, the defect.  For a trade whose input is not native and whose output
    is native, the specification asks for the batched [multicall] method
    wrapping the swap call and then the unwrap call.  The router never pushes
    the swap call onto its list of encoded calls, so the list holds the unwrap
    call alone, the batching test [length > 1] fails, and what is returned is
    the plain swap method with its five positional arguments: no multicall and
    no unwrap call. *)
Theorem native_output_is_not_batched (trade : Trade.t) (options : TradeOptions)
    (r : SwapParameters) :
  Currency.isNative (CurrencyAmount.currency (Trade.inputAmount trade)) = false →
  Currency.isNative (CurrencyAmount.currency (Trade.outputAmount trade)) = true →
  swapCallParameters trade options = Ok r →
  methodName r ≠ "multicall"
  ∧ (methodName r = "swapExactForVariable" ∨ methodName r = "swapVariableForExact")
  ∧ ∃ positional, args r = Positional positional ∧ length positional = 5%nat.
Proof.
  intros _ _ Hr. apply swapCallParameters_Ok in Hr as (to & _ & _ & _ & Hcall).
  destruct (Trade.tradeType trade); destruct Hcall as [-> ->];
    (split_and!; [done | by eauto | by eexists]).
Qed.

(** C2.  In every result of [swapCallParameters] the value is the
    hexadecimal [maximumAmountIn(allowedSlippage)] when the input currency is
    native and ['0x0'] otherwise.  For an EXACT_INPUT trade with native input
    the value is the hexadecimal input amount and the method is the
    non-batched swap method, which covers the case of a non-native output and
    zero slippage. *)
Theorem value_is_native_amountIn (trade : Trade.t) (options : TradeOptions)
    (r : SwapParameters) :
  swapCallParameters trade options = Ok r →
  let etherIn := Currency.isNative (CurrencyAmount.currency (Trade.inputAmount trade)) in
  let etherOut := Currency.isNative (CurrencyAmount.currency (Trade.outputAmount trade)) in
  (etherIn = true →
     value r = toHex (Trade.maximumAmountIn trade (allowedSlippage options)))
  ∧ (etherIn = false → value r = "0x0")
  ∧ (Trade.tradeType trade = EXACT_INPUT → etherIn = true → etherOut = false →
     Fraction.numerator (allowedSlippage options) = 0 →
       value r = toHex (Trade.inputAmount trade)
       ∧ methodName r = "swapExactForVariable").
Proof.
  intros Hr etherIn etherOut.
  apply swapCallParameters_Ok in Hr as (to & _ & _ & Hvalue & Hcall).
  fold etherIn in Hvalue. split_and!.
  - intros Hin. by rewrite Hin in Hvalue.
  - intros Hin. by rewrite Hin in Hvalue.
  - intros Htype Hin _ _. rewrite Htype in Hcall. destruct Hcall as [-> _].
    rewrite Hin in Hvalue. rewrite Hvalue. unfold Trade.maximumAmountIn.
    by rewrite Htype.
Qed.

(** C3.  In every result of [swapCallParameters] the method and the
    positional arguments follow the trade type: EXACT_INPUT gives
    [swapExactForVariable] with (amountIn, amountOut, path, curveIds,
    recipient), EXACT_OUTPUT gives [swapVariableForExact] with (amountOut,
    amountIn, path, curveIds, recipient), where amountIn and amountOut are the
    hexadecimal [maximumAmountIn] and [minimumAmountOut] under the allowed
    slippage, path lists the addresses of the route's tokens in order,
    curveIds lists the curve id of every hop in order, and the recipient is
    the validated recipient address. *)
Theorem method_and_args_follow_trade_type (trade : Trade.t) (options : TradeOptions)
    (r : SwapParameters) :
  swapCallParameters trade options = Ok r →
  let amountIn := toHex (Trade.maximumAmountIn trade (allowedSlippage options)) in
  let amountOut := toHex (Trade.minimumAmountOut trade (allowedSlippage options)) in
  let path := Token.address <$> Route.path (Trade.route trade) in
  let curveIds := Pair.curveId <$> Route.pairs (Trade.route trade) in
  ∃ to, validateAndParseAddress (recipient options) = Some to
    ∧ (Trade.tradeType trade = EXACT_INPUT →
         methodName r = "swapExactForVariable"
         ∧ args r = Positional [ArgString amountIn; ArgString amountOut;
                                ArgStrings path; ArgNumbers curveIds; ArgString to])
    ∧ (Trade.tradeType trade = EXACT_OUTPUT →
         methodName r = "swapVariableForExact"
         ∧ args r = Positional [ArgString amountOut; ArgString amountIn;
                                ArgStrings path; ArgNumbers curveIds; ArgString to])
    ∧ length path = length (Route.path (Trade.route trade))
    ∧ length curveIds = length (Route.pairs (Trade.route trade))
    ∧ (∀ (i : nat) (token : Token.t), Route.path (Trade.route trade) !! i = Some token →
         path !! i = Some (Token.address token))
    ∧ (∀ (i : nat) (p : Pair.t), Route.pairs (Trade.route trade) !! i = Some p →
         curveIds !! i = Some (Pair.curveId p)).
Proof.
  intros Hr amountIn amountOut path curveIds.
  apply swapCallParameters_Ok in Hr as (to & Hto & _ & _ & Hcall).
  exists to. split_and!; [done | | | | | |].
  - intros Htype. by rewrite Htype in Hcall.
  - intros Htype. by rewrite Htype in Hcall.
  - apply length_fmap.
  - apply length_fmap.
  - intros i token Hi. subst path. by rewrite list_lookup_fmap, Hi.
  - intros i p Hi. subst curveIds. by rewrite list_lookup_fmap, Hi.
Qed.

(** C4.  [swapCallParameters] raises NativeInNativeOut exactly when the
    input currency and the output currency of the trade are both native, and
    in that case it returns no swap parameters. *)
Theorem native_in_native_out_rejected (trade : Trade.t) (options : TradeOptions) :
  let etherIn := Currency.isNative (CurrencyAmount.currency (Trade.inputAmount trade)) in
  let etherOut := Currency.isNative (CurrencyAmount.currency (Trade.outputAmount trade)) in
  (swapCallParameters trade options = Err NativeInNativeOut
   ↔ etherIn = true ∧ etherOut = true)
  ∧ (etherIn = true ∧ etherOut = true → ∀ r, swapCallParameters trade options ≠ Ok r).
Proof.
  intros etherIn etherOut.
  assert (etherIn = true ∧ etherOut = true →
          swapCallParameters trade options = Err NativeInNativeOut) as Hraise.
  { intros [Hin Hout]. unfold swapCallParameters.
    fold etherIn etherOut. by rewrite Hin, Hout. }
  split_and!.
  - split; [|done]. intros Hraised.
    apply swapCallParameters_Err in Hraised as [[_ Hboth] | [Hother | Hother]];
      [by apply andb_true_iff in Hboth | discriminate Hother | discriminate Hother].
  - intros Hboth r. rewrite (Hraise Hboth). discriminate.
Qed.

End RouterClaims.

(** ** The router on concrete trades *)

Section RouterWitnesses.
Import Router Examples.

(** 1000 USDC for at least 990 native AVAX.  The result is the plain swap call; the unwrap call is
    lost. *)
Lemma native_output_is_not_batched_witness :
  swapCallParameters tradeOut options = Ok callOut
  ∧ methodName callOut ≠ "multicall"
  ∧ (methodName callOut = "swapExactForVariable"
     ∨ methodName callOut = "swapVariableForExact")
  ∧ ∃ positional, args callOut = Positional positional ∧ length positional = 5%nat.
Proof.
  split; [reflexivity|].
  exact (native_output_is_not_batched tradeOut options callOut eq_refl eq_refl eq_refl).
Defined.

(** 1000 native AVAX for USDC at zero slippage; the value is 0x3e8, the hexadecimal input amount. *)
Lemma value_is_native_amountIn_witness :
  swapCallParameters tradeIn options = Ok callIn
  ∧ value callIn = toHex (Trade.inputAmount tradeIn)
  ∧ methodName callIn = "swapExactForVariable".
Proof.
  split; [reflexivity|].
  exact (proj2 (proj2 (value_is_native_amountIn tradeIn options callIn eq_refl))
           eq_refl eq_refl eq_refl eq_refl).
Defined.

(** An EXACT_OUTPUT trade at half a percent of slippage. *)
Lemma method_and_args_follow_trade_type_witness :
  swapCallParameters tradeExactOut optionsHalf = Ok callExactOut
  ∧ methodName callExactOut = "swapVariableForExact"
  ∧ args callExactOut =
      Positional [ArgString "0x3dd"; ArgString "0x3ed";
                  ArgStrings [Token.address USDC; Token.address USDT;
                              Token.address WAVAX];
                  ArgNumbers [0; 0]; ArgString alice].
Proof.
  split; [reflexivity|].
  assert (swapCallParameters tradeExactOut optionsHalf = Ok callExactOut) as Hcall
    by reflexivity.
  destruct (method_and_args_follow_trade_type tradeExactOut optionsHalf callExactOut
              Hcall) as (to & Hto & _ & Hout & _).
  injection Hto as <-. exact (Hout eq_refl).
Defined.

(** The example routes are what the constructor builds, and the example
    amounts are what the pools quote. *)
Example routes_constructed :
  Route.constructor [pool1; pool2] (Currency.Tok USDC) (Some AVAX) = Ok routeOut
  ∧ Route.constructor [pool2; pool1] AVAX (Some (Currency.Tok USDC)) = Ok routeIn
  ∧ Route.constructor [pool2; pool2] AVAX (Some AVAX) = Ok routeRound
  ∧ Route.constructor [pool1; pool2] (Currency.Tok USDC) (Some (Currency.Tok WAVAX))
    = Ok route12.
Proof. by split_and!. Qed.

Example amounts_quoted :
  (ConstantProduct.quoteOutputForInput 1000000 950000 3000 1000 ≫=
     ConstantProduct.quoteOutputForInput 2000000 2100000 3000) = Ok 989
  ∧ (ConstantProduct.quoteOutputForInput 2100000 2000000 3000 1000 ≫=
       ConstantProduct.quoteOutputForInput 950000 1000000 3000) = Ok 994
  ∧ (ConstantProduct.quoteInputForOutput 2000000 2100000 3000 989 ≫=
       ConstantProduct.quoteInputForOutput 1000000 950000 3000) = Ok 1000
  ∧ (ConstantProduct.quoteOutputForInput 2100000 2000000 3000 1000 ≫=
       ConstantProduct.quoteOutputForInput 2000000 2100000 3000) = Ok 992.
Proof. by split_and!. Qed.

(** Both sides native: the call is rejected. *)
Example both_native_rejected :
  swapCallParameters tradeBothNative options = Err NativeInNativeOut.
Proof. reflexivity. Qed.

End RouterWitnesses.

(** ** Constant-product curve *)

Section ConstantProductClaims.
Import ConstantProduct.

Lemma ceilDiv_bounds (a b : Z) :
  0 < b → (ceilDiv a b - 1) * b < a ∧ a ≤ ceilDiv a b * b.
Proof.
  intros Hb. unfold ceilDiv.
  pose proof (Z.div_mod (- a) b ltac:(lia)) as Hdm.
  pose proof (Z.mod_pos_bound (- a) b Hb) as Hmod.
  split; nia.
Qed.

(** [ceilDiv a b] is the least integer whose product with [b] reaches [a]. *)
Lemma ceilDiv_least (a b x : Z) : 0 < b → a ≤ x * b → ceilDiv a b ≤ x.
Proof.
  intros Hb Hx. destruct (ceilDiv_bounds a b Hb) as [Hlow _]. nia.
Qed.

Lemma ceilDiv_nonneg (a b : Z) : 0 < b → 0 ≤ a → 0 ≤ ceilDiv a b.
Proof.
  intros Hb Ha. destruct (ceilDiv_bounds a b Hb) as [_ Hup]. nia.
Qed.





(** The two ways of rounding up differ when the quotient is exact: with
    reserves of 1,000 on both sides and no fee, 1,000 in gives 500 out, and 500
    out asks for 1,000 in as an exact ceiling and for 1,001 as the floored
    quotient plus one. *)
Example round_trip_can_exceed_amountIn :
  quoteOutputForInput 1000 1000 0 1000 = Ok 500
  ∧ quoteInputForOutput 1000 1000 0 500 = Ok 1000
  ∧ quoteInputForOutputPlusOne 1000 1000 0 500 = Ok 1001.
Proof. split_and!; reflexivity. Qed.


End ConstantProductClaims.

(** * Further properties of the router *)

Section RouterEncoding.
Context `{Externals}.
Import Router.

Lemma BigInt_sign (digits : string) :
  JSBI_BigInt ("0x" +:+ "-" +:+ digits) = Err SyntaxError.
Proof.
  change ("0x" +:+ "-" +:+ digits)
    with (String "0"%char (String "x"%char (String "-"%char digits))).
  unfold JSBI_BigInt. cbv beta iota.
  unfold NilZero.uint_of_string. cbn [NilEmpty.uint_of_string].
  by destruct (NilEmpty.uint_of_string digits).
Qed.

Lemma toHex_negative (currencyAmount : CurrencyAmount.t Currency.t) :
  CurrencyAmount.quotient currencyAmount < 0 →
  JSBI_BigInt (toHex currencyAmount) = Err SyntaxError.
Proof.
  intros Hq. unfold toHex, toString16.
  destruct (CurrencyAmount.quotient currencyAmount) as [|q|q]; [lia | lia |].
  apply BigInt_sign.
Qed.

(** X1.  [JSBI.BigInt] reads back what [toHex] wrote: a non-negative amount
    is recovered exactly, and the text of a negative amount, which carries a
    minus sign after the [0x] prefix, is rejected with a syntax error. *)
Theorem toHex_read_back (currencyAmount : CurrencyAmount.t Currency.t) :
  (0 ≤ CurrencyAmount.quotient currencyAmount →
     JSBI_BigInt (toHex currencyAmount) = Ok (CurrencyAmount.quotient currencyAmount))
  ∧ (CurrencyAmount.quotient currencyAmount < 0 →
       JSBI_BigInt (toHex currencyAmount) = Err SyntaxError).
Proof. split; [apply BigInt_toHex | apply toHex_negative]. Qed.

Lemma hex_text_inj (m n : N) :
  NilZero.string_of_uint (N.to_hex_uint m) = NilZero.string_of_uint (N.to_hex_uint n) →
  m = n.
Proof.
  intros Heq.
  assert (∀ k : N, NilZero.uint_of_string (NilZero.string_of_uint (N.to_hex_uint k))
                   = Some (N.to_hex_uint k)) as Hread.
  { intros k. apply NilZero.usu. intros Hnil.
    destruct k; [discriminate Hnil|].
    pose proof (Unsigned.of_to (N.pos p)) as Hback. rewrite Hnil in Hback. done. }
  pose proof (Hread m) as Hm. rewrite Heq, Hread in Hm. injection Hm as Hm.
  apply (f_equal N.of_hex_uint) in Hm. by rewrite !Unsigned.of_to in Hm.
Qed.

Lemma toString16_negative_inj (p q : positive) :
  toString16 (Z.neg p) = toString16 (Z.neg q) → p = q.
Proof.
  unfold toString16.
  change ("-" +:+ ?s) with (String "-"%char s).
  intros Heq. injection Heq as Heq.
  apply (hex_text_inj (N.pos p) (N.pos q)) in Heq. congruence.
Qed.

(** X2.  The hexadecimal encoding of amounts is unambiguous: two amounts
    with the same text have the same quantity, and the text is ['0x0'] exactly
    for the quantity zero. *)
Theorem toHex_injective (a b : CurrencyAmount.t Currency.t) :
  (toHex a = toHex b → CurrencyAmount.quotient a = CurrencyAmount.quotient b)
  ∧ (toHex a = ZERO_HEX ↔ CurrencyAmount.quotient a = 0).
Proof.
  assert (∀ x y : CurrencyAmount.t Currency.t,
            toHex x = toHex y → CurrencyAmount.quotient x = CurrencyAmount.quotient y)
    as Hinj.
  { intros x y Heq.
    destruct (Z_lt_le_dec (CurrencyAmount.quotient x) 0) as [Hx|Hx];
      destruct (Z_lt_le_dec (CurrencyAmount.quotient y) 0) as [Hy|Hy].
    - unfold toHex in Heq. injection Heq as Heq.
      destruct (CurrencyAmount.quotient x) as [|p|p]; [lia | lia |].
      destruct (CurrencyAmount.quotient y) as [|q|q]; [lia | lia |].
      f_equal. by apply toString16_negative_inj.
    - pose proof (toHex_negative x Hx) as Ex. pose proof (BigInt_toHex y Hy) as Ey.
      rewrite Heq in Ex. congruence.
    - pose proof (BigInt_toHex x Hx) as Ex. pose proof (toHex_negative y Hy) as Ey.
      rewrite Heq in Ex. congruence.
    - pose proof (BigInt_toHex x Hx) as Ex. pose proof (BigInt_toHex y Hy) as Ey.
      rewrite Heq in Ex. congruence. }
  split; [apply Hinj|].
  split.
  - intros Hzero.
    apply (Hinj a (CurrencyAmount.mk (CurrencyAmount.currency a) 0)). by rewrite Hzero.
  - intros Hzero. unfold toHex. by rewrite Hzero.
Qed.

End RouterEncoding.

Section RouterOutcome.
Context `{Externals}.
Import Router RouterSpec.

(** The whole of [swapCallParameters] as a decision on its inputs. *)
Lemma swapCallParameters_outcome (trade : Trade.t) (options : TradeOptions) :
  let etherIn := Currency.isNative (CurrencyAmount.currency (Trade.inputAmount trade)) in
  let etherOut := Currency.isNative (CurrencyAmount.currency (Trade.outputAmount trade)) in
  let minimumOut :=
    CurrencyAmount.quotient (Trade.minimumAmountOut trade (allowedSlippage options)) in
  swapCallParameters trade options =
    if etherIn && etherOut then Err NativeInNativeOut
    else match validateAndParseAddress (recipient options) with
         | None => Err (InvalidAddress (recipient options))
         | Some to =>
             if etherOut then
               if minimumOut <? 0 then Err SyntaxError
               else match encodeUnwrapWETH9 minimumOut (recipient options) with
                    | None => Err (InvalidAddress (recipient options))
                    | Some _ => Ok (plainSwap trade options to)
                    end
             else Ok (plainSwap trade options to)
         end.
Proof.
  intros etherIn etherOut minimumOut.
  unfold swapCallParameters, plainSwap. fold etherIn etherOut.
  destruct etherIn, etherOut; cbn [negb andb invariant mbind result_bind]; [done | | |];
    destruct (validateAndParseAddress (recipient options)) as [to|];
    cbn [mbind result_bind]; try done.
  - by destruct (Trade.tradeType trade).
  - destruct (Z.ltb_spec minimumOut 0) as [Hneg|Hpos].
    + rewrite (toHex_negative _ Hneg). by destruct (Trade.tradeType trade).
    + rewrite (BigInt_toHex _ Hpos). fold minimumOut.
      destruct (Trade.tradeType trade); cbn [push app mbind result_bind];
        by destruct (encodeUnwrapWETH9 minimumOut (recipient options)).
  - by destruct (Trade.tradeType trade).
Qed.

End RouterOutcome.

Section RouterNonInterference.
Import Router RouterSpec.

(** X5.  The output of the encoders never reaches the result, and the
    [feeOnTransfer] option is never read: two sets of helpers that validate
    addresses alike and whose unwrap encoders fail on the same inputs give the
    same outcome, whatever they encode and whatever [feeOnTransfer] is. *)
Theorem swapCallParameters_ignores_encodings (E1 E2 : Externals) (trade : Trade.t)
    (slippage : Percent) (to : string) (fee1 fee2 : option bool) :
  (∀ a, @validateAndParseAddress E1 a = @validateAndParseAddress E2 a) →
  (∀ amount a, is_Some (@encodeUnwrapWETH9 E1 amount a)
               ↔ is_Some (@encodeUnwrapWETH9 E2 amount a)) →
  @swapCallParameters E1 trade (mkOptions slippage to fee1)
  = @swapCallParameters E2 trade (mkOptions slippage to fee2).
Proof.
  intros Hvalidate Hunwrap.
  rewrite (@swapCallParameters_outcome E1), (@swapCallParameters_outcome E2).
  cbn [allowedSlippage recipient]. rewrite Hvalidate.
  destruct (_ && _); [done|].
  destruct (@validateAndParseAddress E2 to) as [checked|]; [|done].
  destruct (Currency.isNative _); [|done].
  destruct (_ <? 0); [done|].
  specialize (Hunwrap
    (CurrencyAmount.quotient (Trade.minimumAmountOut trade slippage)) to).
  destruct (@encodeUnwrapWETH9 E1 _ to) as [u1|], (@encodeUnwrapWETH9 E2 _ to) as [u2|];
    try done.
  - destruct Hunwrap as [Hsome _]. destruct (Hsome ltac:(by eexists)) as [? Hnone]. done.
  - destruct Hunwrap as [_ Hsome]. destruct (Hsome ltac:(by eexists)) as [? Hnone]. done.
Qed.

(** Two sets of helpers with different encoders, and both settings of
    [feeOnTransfer], on the trade with a native output. *)
Lemma swapCallParameters_ignores_encodings_witness :
  @swapCallParameters Examples.externals Examples.tradeOut
    (mkOptions Examples.zeroSlippage Examples.alice (Some true))
  = @swapCallParameters blankEncoders Examples.tradeOut
      (mkOptions Examples.zeroSlippage Examples.alice None).
Proof.
  apply swapCallParameters_ignores_encodings.
  - reflexivity.
  - intros amount a. split; intros _; by eexists.
Defined.

End RouterNonInterference.

(** * Further properties of routes *)

Section RouteAlgebra.
Import RouteSpec RouteOps.

Lemma constructor_Ok_inv (pairs : list Pair.t) (input : Currency.t)
    (output : option Currency.t) (r : Route.t) :
  Route.constructor pairs input output = Ok r →
  NonEmpty pairs ∧ SameChain pairs ∧ InputInFirst pairs input
  ∧ OutputInLast pairs output
  ∧ ∃ ts, follow (Currency.wrapped input) pairs = Some ts
      ∧ r = Route.mk pairs (Currency.wrapped input :: ts) input output None.
Proof.
  intros Hbuilt.
  destruct (constructor_cases pairs input output)
    as [(_ & E) | [(_ & _ & E) | [(_ & _ & _ & E) | [(_ & _ & _ & _ & E)
       | [(_ & _ & _ & _ & _ & E) | (Hne & Hchain & Hin & Hout & _ & ts & Hts & E)]]]]];
    rewrite E in Hbuilt; try discriminate Hbuilt.
  injection Hbuilt as <-. split_and!; try done. by exists ts.
Qed.

Lemma constructor_Ok_intro (pairs : list Pair.t) (input : Currency.t)
    (output : option Currency.t) (ts : list Token.t) :
  NonEmpty pairs → SameChain pairs → InputInFirst pairs input →
  OutputInLast pairs output → follow (Currency.wrapped input) pairs = Some ts →
  Route.constructor pairs input output =
    Ok (Route.mk pairs (Currency.wrapped input :: ts) input output None).
Proof.
  intros Hne Hchain Hin Hout Hts.
  destruct (constructor_cases pairs input output)
    as [(Hn & _) | [(_ & Hn & _) | [(_ & _ & Hn & _) | [(_ & _ & _ & Hn & _)
       | [(_ & _ & _ & _ & Hn & _) | (_ & _ & _ & _ & _ & ts' & Hts' & E)]]]]];
    try done.
  - exfalso. apply Hn. exists (Currency.wrapped input :: ts). by apply follow_Chain.
  - rewrite E. congruence.
Qed.

(** X7.  On a constructed route the [chainId] getter answers, and its answer
    is the chain id of every pair of the route. *)
Theorem chainId_of_constructed_route (pairs : list Pair.t) (input : Currency.t)
    (output : option Currency.t) (r : Route.t) :
  Route.constructor pairs input output = Ok r →
  ∃ c, Route.chainId r = Ok c ∧ ∀ p, p ∈ Route.pairs r → Pair.chainId p = c.
Proof.
  intros Hbuilt.
  apply constructor_Ok_inv in Hbuilt as (Hne & Hchain & _ & _ & ts & _ & ->).
  destruct pairs as [|first rest]; [done|].
  exists (Pair.chainId first). split; [done|].
  intros p Hp. apply Hchain; [done | left].
Qed.

(** The route USDC, USDT, WAVAX lives on the Avalanche chain. *)
Lemma chainId_of_constructed_route_witness :
  ∃ c, Route.chainId Examples.route12 = Ok c
    ∧ ∀ p, p ∈ Route.pairs Examples.route12 → Pair.chainId p = c.
Proof.
  exact (chainId_of_constructed_route [Examples.pool1; Examples.pool2]
           (Currency.Tok Examples.USDC) (Some (Currency.Tok Examples.WAVAX))
           Examples.route12 eq_refl).
Defined.

(** The constructor looks at its input only through the wrapped token. *)
Lemma constructor_wrapped (pairs : list Pair.t) (input : Currency.t)
    (output : option Currency.t) :
  Route.constructor pairs input output =
    r ← Route.constructor pairs (Currency.Tok (Currency.wrapped input)) output;
    Ok (between r input output).
Proof.
  unfold Route.constructor. cbn [Currency.wrapped].
  destruct (invariant (0 <? length pairs)%nat "PAIRS") as [[]|e];
    cbn [mbind result_bind]; [|done].
  destruct (defined (pairs !! 0%nat)) as [first|e]; cbn [mbind result_bind]; [|done].
  destruct (invariant (forallb _ pairs) "CHAIN_IDS") as [[]|e];
    cbn [mbind result_bind]; [|done].
  destruct (invariant (Pair.involvesToken first (Currency.wrapped input)) "INPUT")
    as [[]|e]; cbn [mbind result_bind]; [|done].
  destruct output as [out|].
  - destruct (defined (pairs !! (length pairs - 1)%nat)) as [lastPair|e];
      cbn [mbind result_bind]; [|done].
    destruct (invariant _ "OUTPUT") as [[]|e]; cbn [mbind result_bind]; [|done].
    by destruct (Route.constructor_loop _ _).
  - cbn [mbind result_bind invariant].
    by destruct (Route.constructor_loop _ _).
Qed.

(** X8.  A native input is routed exactly as the token that wraps it: the
    constructor given the native currency and the constructor given its
    wrapped token fail with the same error or build routes with the same pairs
    and the same path, which differ only in the recorded input. *)
Theorem native_input_routed_as_wrapped (pairs : list Pair.t) (chain : Z)
    (wrappedToken : Token.t) (output : option Currency.t) :
  match Route.constructor pairs (Currency.Native chain wrappedToken) output,
        Route.constructor pairs (Currency.Tok wrappedToken) output with
  | Ok native, Ok token =>
      Route.pairs native = Route.pairs token
      ∧ Route.path native = Route.path token
      ∧ Route.output native = Route.output token
      ∧ Route.input native = Currency.Native chain wrappedToken
      ∧ Route.input token = Currency.Tok wrappedToken
  | Err e1, Err e2 => e1 = e2
  | _, _ => False
  end.
Proof.
  rewrite (constructor_wrapped pairs (Currency.Native chain wrappedToken)).
  cbn [Currency.wrapped].
  destruct (Route.constructor pairs (Currency.Tok wrappedToken) output) as [r|e] eqn:E;
    cbn [mbind result_bind]; [|done].
  apply constructor_Ok_inv in E as (_ & _ & _ & _ & ts & _ & ->). done.
Qed.

(** X9.  A route built with an undefined output has no mid price: the getter
    fails with a type error whatever the pairs are. *)
Theorem midPrice_needs_output (pairs : list Pair.t) (input : Currency.t) (r : Route.t) :
  Route.constructor pairs input None = Ok r →
  Route.midPrice r = Err TypeError.
Proof.
  intros Hbuilt. rewrite (midPrice_constructed _ _ _ _ Hbuilt).
  by destruct (forallb knownCurve pairs).
Qed.

(** The pool USDC/USDT entered with USDC and no output. *)
Lemma midPrice_needs_output_witness :
  Route.constructor [Examples.pool1] (Currency.Tok Examples.USDC) None
    = Ok (between Examples.routeBack (Currency.Tok Examples.USDC) None)
  ∧ Route.midPrice (between Examples.routeBack (Currency.Tok Examples.USDC) None)
    = Err TypeError.
Proof.
  split; [reflexivity|].
  exact (midPrice_needs_output [Examples.pool1] (Currency.Tok Examples.USDC)
           (between Examples.routeBack (Currency.Tok Examples.USDC) None) eq_refl).
Defined.

End RouteAlgebra.

Section RouteComposition.
Import RouteSpec RouteOps.

Lemma Token_equals_refl (t : Token.t) : Token.equals t t = true.
Proof. apply Token_equals_spec. done. Qed.

Lemma endToken_cons (a : Token.t) (p : Pair.t) (ps : list Pair.t) :
  endToken a (p :: ps) = endToken (otherToken p a) ps.
Proof. reflexivity. Qed.

Lemma follow_app (ps1 ps2 : list Pair.t) :
  ∀ a, follow a (ps1 ++ ps2) =
         ts1 ← follow a ps1; ts2 ← follow (endToken a ps1) ps2; Some (ts1 ++ ts2).
Proof.
  induction ps1 as [|p ps1 IH]; intros a.
  - simpl. by destruct (follow a ps2).
  - cbn [app follow]. destruct (Pair.involvesToken p a); [|done].
    rewrite IH, endToken_cons.
    destruct (follow (otherToken p a) ps1) as [ts1|]; [|done]. simpl.
    by destruct (follow (endToken (otherToken p a) ps1) ps2).
Qed.

Lemma follow_last (ps : list Pair.t) :
  ∀ a ts, follow a ps = Some ts → last (a :: ts) = Some (endToken a ps).
Proof.
  induction ps as [|p ps IH]; intros a ts Hts.
  - by injection Hts as <-.
  - simpl in Hts. destruct (Pair.involvesToken p a); [|done].
    destruct (follow (otherToken p a) ps) as [ts'|] eqn:E; [|done].
    injection Hts as <-. rewrite endToken_cons.
    change (last (a :: otherToken p a :: ts')) with (last (otherToken p a :: ts')).
    by apply IH.
Qed.

Lemma hopSpotPrices_app (ps1 ps2 : list Pair.t) :
  ∀ a, hopSpotPrices a (ps1 ++ ps2) =
         hopSpotPrices a ps1 ++ hopSpotPrices (endToken a ps1) ps2.
Proof.
  induction ps1 as [|p ps1 IH]; intros a; [done|].
  cbn [app hopSpotPrices]. by rewrite IH, endToken_cons.
Qed.

Lemma product_app (l1 l2 : list Z) : product (l1 ++ l2) = product l1 * product l2.
Proof.
  unfold product. induction l1 as [|x l1 IH]; simpl; [by destruct (foldr Z.mul 1 l2)|].
  rewrite IH. lia.
Qed.

Lemma follow_first (a : Token.t) (ps : list Pair.t) (ts : list Token.t) :
  follow a ps = Some ts → ps ≠ [] →
  ∃ p, head ps = Some p ∧ Pair.involvesToken p a = true.
Proof.
  intros Hts Hne. destruct ps as [|p ps]; [by destruct Hne|]. cbn [follow] in Hts.
  destruct (Pair.involvesToken p a) eqn:Hin; [|discriminate Hts].
  exists p. split; [reflexivity | exact Hin].
Qed.

Lemma endToken_in_last (a : Token.t) (ps : list Pair.t) (ts : list Token.t) :
  follow a ps = Some ts → ps ≠ [] →
  ∃ p, last ps = Some p ∧ Pair.involvesToken p (endToken a ps) = true.
Proof.
  intros Hts Hne. pose proof (follow_last _ _ _ Hts) as Hend.
  apply follow_Chain in Hts.
  destruct (last ps) as [p|] eqn:Hlast; [|by apply last_None in Hlast].
  destruct (Chain_last _ _ _ Hts p Hlast) as (x & e & _ & He & Hhop).
  rewrite Hend in He. injection He as <-. exists p. split; [done|].
  unfold Pair.involvesToken.
  destruct (Hop_tokens _ _ _ Hhop) as [[_ ->] | [_ ->]];
    rewrite Token_equals_refl; [by rewrite orb_true_r | done].
Qed.

Lemma midPrice_Ok_inv (pairs : list Pair.t) (input : Currency.t)
    (output : option Currency.t) (r after : Route.t) (price : Price.t) :
  Route.constructor pairs input output = Ok r →
  Route.midPrice r = Ok (price, after) →
  forallb knownCurve pairs = true
  ∧ ∃ out, output = Some out ∧ price = composedPrice pairs input out.
Proof.
  intros Hbuilt Hmid. rewrite (midPrice_constructed _ _ _ _ Hbuilt) in Hmid.
  destruct (forallb knownCurve pairs); [|discriminate Hmid].
  destruct output as [out|]; [|discriminate Hmid].
  injection Hmid as <- _. split; [done | by exists out].
Qed.

(** X10.  Routes compose and their mid prices multiply.  When a route from
    [input] ends at the token [t], a second route starts from [t] and both are
    on the same chain, the constructor accepts the concatenated pairs, the path
    is the first path followed by the rest of the second, and the mid price of
    the whole is the mid price of the first part multiplied by that of the
    second, expressed between the overall input and output. *)
Theorem midPrice_of_concatenation (ps1 ps2 : list Pair.t) (input output : Currency.t)
    (t : Token.t) (r1 r2 after1 after2 : Route.t) (price1 price2 : Price.t) :
  Route.constructor ps1 input (Some (Currency.Tok t)) = Ok r1 →
  last (Route.path r1) = Some t →
  Route.constructor ps2 (Currency.Tok t) (Some output) = Ok r2 →
  Route.chainId r1 = Route.chainId r2 →
  Route.midPrice r1 = Ok (price1, after1) →
  Route.midPrice r2 = Ok (price2, after2) →
  ∃ whole composed after,
    Route.constructor (ps1 ++ ps2) input (Some output) = Ok whole
    ∧ Route.path whole = Route.path r1 ++ tail (Route.path r2)
    ∧ Price.multiply price1 price2 = Ok composed
    ∧ Route.midPrice whole =
        Ok (Price.new input output
              (Price.denominator composed) (Price.numerator composed), after).
Proof.
  intros Hr1 Hend Hr2 Hchain Hmid1 Hmid2.
  destruct (midPrice_Ok_inv _ _ _ _ _ _ Hr1 Hmid1) as (Hk1 & out1 & Hout1 & ->).
  destruct (midPrice_Ok_inv _ _ _ _ _ _ Hr2 Hmid2) as (Hk2 & out2 & Hout2 & ->).
  injection Hout1 as <-. injection Hout2 as <-.
  apply constructor_Ok_inv in Hr1 as (Hne1 & Hsame1 & Hin1 & _ & ts1 & Hts1 & ->).
  apply constructor_Ok_inv in Hr2 as (Hne2 & Hsame2 & Hin2 & Hout2 & ts2 & Hts2 & ->).
  cbn [Route.path Currency.wrapped] in *.
  rewrite (follow_last _ _ _ Hts1) in Hend. injection Hend as Hend.
  assert (follow (Currency.wrapped input) (ps1 ++ ps2) = Some (ts1 ++ ts2)) as Hts.
  { rewrite follow_app, Hts1. simpl. rewrite Hend, Hts2. done. }
  assert (Route.constructor (ps1 ++ ps2) input (Some output)
          = Ok (Route.mk (ps1 ++ ps2) (Currency.wrapped input :: ts1 ++ ts2)
                  input (Some output) None)) as Hwhole.
  { apply constructor_Ok_intro; [| | | | done].
    - unfold NonEmpty in *. by destruct ps1.
    - destruct ps1 as [|f1 rest1]; [done|]. destruct ps2 as [|f2 rest2]; [done|].
      unfold Route.chainId in Hchain. cbn in Hchain. injection Hchain as Hchain.
      intros p q Hp Hq. rewrite elem_of_app in Hp, Hq.
      assert (∀ x, x ∈ f1 :: rest1 ∨ x ∈ f2 :: rest2 → Pair.chainId x = Pair.chainId f1)
        as Hall.
      { intros x [Hx | Hx].
        - apply Hsame1; [done | left].
        - rewrite Hchain. apply Hsame2; [done | left]. }
      by rewrite (Hall p Hp), (Hall q Hq).
    - destruct Hin1 as (p & Hp & Hinv). exists p. split; [|done].
      destruct ps1; [done|]. done.
    - intros out [= <-]. destruct (Hout2 output eq_refl) as (p & Hp & Hinv).
      exists p. split; [|done]. rewrite last_app, Hp. done. }
  eexists _, _, _. split; [exact Hwhole|]. split; [done|].
  split.
  { unfold Price.multiply, composedPrice. cbn [Price.quoteCurrency Price.baseCurrency
      Currency.equals]. rewrite Token_equals_refl. reflexivity. }
  rewrite (midPrice_constructed _ _ _ _ Hwhole).
  rewrite forallb_app, Hk1, Hk2. cbn [andb].
  unfold composedPrice, Price.new, Price.asFraction, Fraction.multiply.
  cbn [Price.numerator Price.denominator Fraction.numerator Fraction.denominator
       Currency.wrapped].
  rewrite hopSpotPrices_app, Hend, !fmap_app, !product_app. reflexivity.
Qed.

(** The route USDC to USDT followed by the route USDT to WAVAX. *)
Lemma midPrice_of_concatenation_witness :
  ∃ whole composed after,
    Route.constructor ([Examples.pool1] ++ [Examples.pool2])
      (Currency.Tok Examples.USDC) (Some (Currency.Tok Examples.WAVAX)) = Ok whole
    ∧ Route.path whole = [Examples.USDC; Examples.USDT] ++ [Examples.WAVAX]
    ∧ Price.multiply
        (Price.mk (Currency.Tok Examples.USDC) (Currency.Tok Examples.USDT)
                  950000 1000000)
        (Price.mk (Currency.Tok Examples.USDT) (Currency.Tok Examples.WAVAX)
                  2100000 2000000) = Ok composed
    ∧ Route.midPrice whole =
        Ok (Price.new (Currency.Tok Examples.USDC) (Currency.Tok Examples.WAVAX)
              (Price.denominator composed) (Price.numerator composed), after).
Proof.
  refine (midPrice_of_concatenation [Examples.pool1] [Examples.pool2]
            (Currency.Tok Examples.USDC) (Currency.Tok Examples.WAVAX) Examples.USDT
            (Route.mk [Examples.pool1] [Examples.USDC; Examples.USDT]
               (Currency.Tok Examples.USDC) (Some (Currency.Tok Examples.USDT)) None)
            (Route.mk [Examples.pool2] [Examples.USDT; Examples.WAVAX]
               (Currency.Tok Examples.USDT) (Some (Currency.Tok Examples.WAVAX)) None)
            _ _ _ _ eq_refl eq_refl eq_refl eq_refl eq_refl eq_refl).
Defined.

End RouteComposition.

Section RouteSplitting.
Import RouteSpec RouteOps.

Lemma SameChain_sub (ps qs : list Pair.t) :
  (∀ p, p ∈ qs → p ∈ ps) → SameChain ps → SameChain qs.
Proof. intros Hsub Hsame p q Hp Hq. apply Hsame; by apply Hsub. Qed.

(** X11.  A constructed route can be cut between any two of its pairs: the
    constructor accepts the first part from the same input up to the token
    reached there, and the second part from that token to the same output, and
    the path of the whole is the first path followed by the rest of the
    second. *)
Theorem constructed_route_splits (ps1 ps2 : list Pair.t) (input : Currency.t)
    (output : option Currency.t) (r : Route.t) :
  Route.constructor (ps1 ++ ps2) input output = Ok r →
  ps1 ≠ [] → ps2 ≠ [] →
  ∃ t r1 r2,
    Route.constructor ps1 input (Some (Currency.Tok t)) = Ok r1
    ∧ last (Route.path r1) = Some t
    ∧ Route.constructor ps2 (Currency.Tok t) output = Ok r2
    ∧ Route.path r = Route.path r1 ++ tail (Route.path r2).
Proof.
  intros Hbuilt Hne1 Hne2.
  apply constructor_Ok_inv in Hbuilt as (_ & Hsame & Hin & Hout & ts & Hts & ->).
  rewrite follow_app in Hts.
  destruct (follow (Currency.wrapped input) ps1) as [ts1|] eqn:Hts1; [|done].
  simpl in Hts.
  destruct (follow (endToken (Currency.wrapped input) ps1) ps2) as [ts2|] eqn:Hts2;
    [|done].
  injection Hts as <-.
  set (t := endToken (Currency.wrapped input) ps1) in *.
  exists t. eexists _, _. split_and!.
  - apply constructor_Ok_intro; [done | | | | exact Hts1].
    + apply (SameChain_sub (ps1 ++ ps2)); [|done]. intros p Hp. apply elem_of_app. by left.
    + destruct Hin as (p & Hp & Hinv). exists p. split; [|done]. by destruct ps1.
    + intros out [= <-]. by apply (endToken_in_last _ _ ts1).
  - cbn [Route.path]. by apply follow_last.
  - apply constructor_Ok_intro; [done | | | | exact Hts2].
    + apply (SameChain_sub (ps1 ++ ps2)); [|done]. intros p Hp. apply elem_of_app. by right.
    + by apply (follow_first _ _ ts2).
    + intros out Hsome. destruct (Hout out Hsome) as (p & Hp & Hinv).
      exists p. split; [|done]. rewrite last_app in Hp.
      destruct (last ps2) eqn:Hl; [done | by apply last_None in Hl].
  - done.
Qed.

(** The route USDC, USDT, WAVAX cut after its first pool. *)
Lemma constructed_route_splits_witness :
  ∃ t r1 r2,
    Route.constructor [Examples.pool1] (Currency.Tok Examples.USDC)
      (Some (Currency.Tok t)) = Ok r1
    ∧ last (Route.path r1) = Some t
    ∧ Route.constructor [Examples.pool2] (Currency.Tok t) (Some Examples.AVAX) = Ok r2
    ∧ Route.path Examples.routeOut = Route.path r1 ++ tail (Route.path r2).
Proof.
  apply (constructed_route_splits [Examples.pool1] [Examples.pool2]
           (Currency.Tok Examples.USDC) (Some Examples.AVAX) Examples.routeOut eq_refl);
    done.
Defined.

End RouteSplitting.

Section RouteReversal.
Import RouteSpec RouteOps.

Lemma Token_equals_sym (a b : Token.t) :
  Token.equals a b = true → Token.equals b a = true.
Proof. rewrite !Token_equals_spec. intros [-> ->]. done. Qed.

Lemma Token_equals_trans (a b c : Token.t) :
  Token.equals a b = true → Token.equals b c = true → Token.equals a c = true.
Proof. rewrite !Token_equals_spec. intros [-> ->] [-> ->]. done. Qed.

Lemma Token_equals_false_l (a b c : Token.t) :
  Token.equals a b = true → Token.equals b c = false → Token.equals a c = false.
Proof.
  intros Hab Hbc. destruct (Token.equals a c) eqn:Hac; [|done].
  rewrite (Token_equals_trans b a c) in Hbc; [done | by apply Token_equals_sym | done].
Qed.

(** Crossing a pair backwards: a token equal to the one that left the pair
    enters it, leaves as the token that had entered, and the spot price is
    turned upside down. *)
Lemma hop_back (p : Pair.t) (a x : Token.t) :
  DistinctTokens p → Pair.involvesToken p a = true →
  Token.equals x (otherToken p a) = true →
  Pair.involvesToken p x = true
  ∧ Token.equals (otherToken p x) a = true
  ∧ (ConstantProductPair p → spotPrice p x = invert (spotPrice p a)).
Proof.
  unfold DistinctTokens, Pair.involvesToken, otherToken, ConstantProductPair, spotPrice, invert.
  intros Hdistinct Hin Hx.
  destruct (Token.equals a (Pair.token0 p)) eqn:Ea0.
  - assert (Token.equals x (Pair.token0 p) = false) as ->.
    { apply (Token_equals_false_l x (Pair.token1 p)); [done|].
      destruct (Token.equals (Pair.token1 p) (Pair.token0 p)) eqn:E10; [|done].
      apply Token_equals_sym in E10. congruence. }
    rewrite Hx. split_and!; [done | by apply Token_equals_sym |].
    intros ->. done.
  - simpl in Hin. rewrite Hx. split_and!; [done | by apply Token_equals_sym |].
    intros ->. done.
Qed.

Lemma endToken_app (a : Token.t) (ps1 ps2 : list Pair.t) :
  endToken a (ps1 ++ ps2) = endToken (endToken a ps1) ps2.
Proof. apply foldl_app. Qed.

(** Walking the reversed pairs from the end of a walk leads back to its
    start through the inverse prices. *)
Lemma follow_reverse (ps : list Pair.t) :
  ∀ (a x : Token.t) (ts : list Token.t),
    follow a ps = Some ts → Forall DistinctTokens ps →
    Token.equals x (endToken a ps) = true →
    is_Some (follow x (reverse ps))
    ∧ Token.equals (endToken x (reverse ps)) a = true
    ∧ (Forall ConstantProductPair ps →
         hopSpotPrices x (reverse ps) = reverse (invert <$> hopSpotPrices a ps)).
Proof.
  induction ps as [|p ps IH]; intros a x ts Hts Hdistinct Hx.
  - split_and!; [by eexists | done | done].
  - cbn [follow] in Hts. destruct (Pair.involvesToken p a) eqn:Hin; [|done].
    destruct (follow (otherToken p a) ps) as [ts1|] eqn:Hts1; [|done].
    apply Forall_cons in Hdistinct as [Hp Hdistinct].
    rewrite endToken_cons in Hx.
    destruct (IH _ x _ Hts1 Hdistinct Hx) as ([ts' Hts'] & Hback & Hprices).
    destruct (hop_back p a _ Hp Hin Hback) as (Hin' & Hend & Hprice).
    rewrite reverse_cons. split_and!.
    + rewrite follow_app, Hts'. cbn [mbind option_bind follow]. rewrite Hin'. by eexists.
    + by rewrite endToken_app.
    + intros Hcp. apply Forall_cons in Hcp as [Hcp Hcps].
      rewrite hopSpotPrices_app, (Hprices Hcps). cbn [hopSpotPrices].
      rewrite (Hprice Hcp), fmap_cons, reverse_cons. done.
Qed.

Lemma product_reverse (l : list Z) : product (reverse l) = product l.
Proof.
  induction l as [|x l IH]; [done|].
  rewrite reverse_cons, product_app, IH. unfold product. simpl. lia.
Qed.

Lemma fmap_invert (l : list Fraction.t) :
  Fraction.numerator <$> (invert <$> l) = Fraction.denominator <$> l
  ∧ Fraction.denominator <$> (invert <$> l) = Fraction.numerator <$> l.
Proof. rewrite <- !list_fmap_compose. done. Qed.

(** X12.  Reversing a route inverts its mid price.  For a constructed route
    over constant-product pairs, each between two different tokens, whose path
    ends at the output token, the constructor accepts the reversed pairs from
    the output back to the input, and the mid price of the reversed route has
    the numerator and the denominator of the original mid price exchanged. *)
Theorem midPrice_of_reversed_route (pairs : list Pair.t) (input output : Currency.t)
    (r : Route.t) (e : Token.t) :
  Route.constructor pairs input (Some output) = Ok r →
  Forall DistinctTokens pairs → Forall ConstantProductPair pairs →
  last (Route.path r) = Some e →
  Token.equals (Currency.wrapped output) e = true →
  ∃ price back after afterBack,
    Route.midPrice r = Ok (price, after)
    ∧ Route.constructor (reverse pairs) output (Some input) = Ok back
    ∧ Route.midPrice back =
        Ok (Price.mk output input (Price.denominator price) (Price.numerator price),
            afterBack).
Proof.
  intros Hbuilt Hdistinct Hcp Hlast Hend.
  pose proof (midPrice_constructed _ _ _ _ Hbuilt) as Hmid.
  assert (forallb knownCurve pairs = true) as Hknown.
  { apply knownCurve_Forall. eapply Forall_impl; [exact Hcp|]. intros p Hp. by left. }
  rewrite Hknown in Hmid.
  apply constructor_Ok_inv in Hbuilt as (Hne & Hsame & Hin & Hout & ts & Hts & ->).
  cbn [Route.path] in Hlast. rewrite (follow_last _ _ _ Hts) in Hlast.
  injection Hlast as <-.
  destruct (follow_reverse pairs _ _ _ Hts Hdistinct Hend)
    as ([ts' Hts'] & _ & Hprices).
  assert (Route.constructor (reverse pairs) output (Some input)
          = Ok (Route.mk (reverse pairs) (Currency.wrapped output :: ts')
                  output (Some input) None)) as Hback.
  { apply constructor_Ok_intro; [| | | | done].
    - unfold NonEmpty in *. intros Hnil. apply Hne.
      by rewrite <- (reverse_involutive pairs), Hnil.
    - apply (SameChain_sub pairs); [|done]. intros p Hp.
      exact (proj1 (elem_of_reverse _ _) Hp).
    - destruct (Hout output eq_refl) as (p & Hp & Hinv). exists p. split; [|done].
      by rewrite head_reverse.
    - intros out [= <-]. destruct Hin as (p & Hp & Hinv). exists p. split; [|done].
      by rewrite last_reverse. }
  eexists _, _, _, _. split; [exact Hmid|]. split; [exact Hback|].
  rewrite (midPrice_constructed _ _ _ _ Hback).
  assert (forallb knownCurve (reverse pairs) = true) as ->.
  { apply knownCurve_Forall, Forall_reverse. by apply knownCurve_Forall. }
  unfold composedPrice. cbn [Price.numerator Price.denominator].
  rewrite (Hprices Hcp), !fmap_reverse, !product_reverse.
  destruct (fmap_invert (hopSpotPrices (Currency.wrapped input) pairs)) as [-> ->].
  reflexivity.
Qed.

(** The route USDC, USDT, WAVAX and the route WAVAX, USDT, USDC. *)
Lemma midPrice_of_reversed_route_witness :
  ∃ price back after afterBack,
    Route.midPrice Examples.route12 = Ok (price, after)
    ∧ Route.constructor (reverse [Examples.pool1; Examples.pool2])
        (Currency.Tok Examples.WAVAX) (Some (Currency.Tok Examples.USDC)) = Ok back
    ∧ Route.midPrice back =
        Ok (Price.mk (Currency.Tok Examples.WAVAX) (Currency.Tok Examples.USDC)
              (Price.denominator price) (Price.numerator price), afterBack).
Proof.
  apply (midPrice_of_reversed_route [Examples.pool1; Examples.pool2]
           (Currency.Tok Examples.USDC) (Currency.Tok Examples.WAVAX)
           Examples.route12 Examples.WAVAX eq_refl).
  - repeat constructor.
  - repeat constructor.
  - reflexivity.
  - reflexivity.
Defined.

End RouteReversal.

(** * The fetcher *)

Section TokenCache.
Context `{Fetcher.Sdk}.
Import Fetcher.

Lemma cached_insert (cache : Cache) (chainId : Z) (address : string) (number : Z) :
  cached (<[chainId := <[address := number]> (default ∅ (cache !! chainId))]> cache)
         chainId address = Some number.
Proof. unfold cached. rewrite lookup_insert_eq. simpl. by rewrite lookup_insert_eq. Qed.

Lemma cached_insert_other (cache : Cache) (chainId otherChain : Z)
    (address other : string) (number : Z) :
  (otherChain, other) ≠ (chainId, address) →
  cached (<[chainId := <[address := number]> (default ∅ (cache !! chainId))]> cache)
         otherChain other = cached cache otherChain other.
Proof.
  intros Hne. unfold cached.
  destruct (decide (otherChain = chainId)) as [->|Hchain].
  - rewrite lookup_insert_eq. simpl.
    rewrite lookup_insert_ne by congruence.
    by destruct (cache !! chainId).
  - by rewrite lookup_insert_ne.
Qed.

(** A call for a cached token ends in its own turn and changes nothing. *)
Lemma step_Call_hit (s : State) (request : Request) (number : Z) :
  cached (cacheNow s) (requestChainId request) (requestAddress request) = Some number →
  step s (Call request) =
    (s, Some (sdk (newToken (requestChainId request) (requestAddress request) number
                            (requestSymbol request) (requestName request)))).
Proof. intros Hhit. unfold step, fetchTokenData. by rewrite Hhit. Qed.

(** A call for a token that is not cached waits, behind the calls that wait
    already. *)
Lemma step_Call_miss (s : State) (request : Request) :
  cached (cacheNow s) (requestChainId request) (requestAddress request) = None →
  step s (Call request) = (mkState (cacheNow s) (inFlight s ++ [request]), None).
Proof. intros Hmiss. unfold step, fetchTokenData. by rewrite Hmiss. Qed.

(** One turn keeps every entry in the cache; its decimals change only to what
    the ledger answers to a call for the same token that was waiting. *)
Lemma step_cached (s : State) (e : Event) (c : Z) (a : string) (n : Z) :
  cached (cacheNow s) c a = Some n →
  ∃ m, cached (cacheNow (step s e).1) c a = Some m
       ∧ (m = n
          ∨ ∃ waiting, waiting ∈ inFlight s
              ∧ requestChainId waiting = c ∧ requestAddress waiting = a
              ∧ decimals (requestProvider waiting) a = Some m).
Proof.
  intros Hkept. destruct e as [request|i].
  - exists n. split; [|by left]. unfold step.
    by destruct (fetchTokenData _ _ _ _ _ _).
  - unfold step. destruct (inFlight s !! i) as [request|] eqn:Hwaiting;
      [|exists n; by split; [|left]].
    unfold fetchTokenData_resume.
    destruct (decimals (requestProvider request) (requestAddress request))
      as [number|] eqn:Hanswer; cbn [fst cacheNow]; [|exists n; by split; [|left]].
    destruct (decide ((c, a) = (requestChainId request, requestAddress request)))
      as [[= -> ->]|Hother].
    + exists number. split; [apply cached_insert|]. right. exists request.
      split_and!; [by eapply list_elem_of_lookup_2 | done | done | done].
    + exists n. split; [|by left]. by rewrite cached_insert_other.
Qed.

(** While a token is cached, no call for it starts to wait. *)
Lemma step_inFlight (s : State) (e : Event) (c : Z) (a : string) (n : Z)
    (waiting : Request) :
  cached (cacheNow s) c a = Some n →
  waiting ∈ inFlight (step s e).1 →
  requestChainId waiting = c → requestAddress waiting = a →
  waiting ∈ inFlight s.
Proof.
  intros Hkept Hwaiting Hc Ha. destruct e as [request|i].
  - destruct (cached (cacheNow s) (requestChainId request) (requestAddress request))
      as [number|] eqn:Hlookup.
    + by rewrite (step_Call_hit _ _ _ Hlookup) in Hwaiting.
    + rewrite (step_Call_miss _ _ Hlookup) in Hwaiting. cbn [fst inFlight] in Hwaiting.
      apply elem_of_app in Hwaiting as [Hold|Hnew]; [done|].
      apply list_elem_of_singleton in Hnew as ->. congruence.
  - unfold step in Hwaiting. destruct (inFlight s !! i) as [request|]; [|done].
    destruct (fetchTokenData_resume _ _ _ _ _ _) as [cache outcome].
    cbn [fst inFlight] in Hwaiting. by eapply list_elem_of_delete_inv.
Qed.

(** Over any sequence of turns a cached token stays cached, with the decimals
    it has or with what the ledger answers to a call for it that was waiting at
    the start, and no further call for it starts to wait. *)
Lemma run_cached (events : list Event) :
  ∀ (s : State) (c : Z) (a : string) (n : Z),
    cached (cacheNow s) c a = Some n →
    (∃ m, cached (cacheNow (run s events)) c a = Some m
          ∧ (m = n
             ∨ ∃ waiting, waiting ∈ inFlight s
                 ∧ requestChainId waiting = c ∧ requestAddress waiting = a
                 ∧ decimals (requestProvider waiting) a = Some m))
    ∧ (∀ waiting, waiting ∈ inFlight (run s events) →
         requestChainId waiting = c → requestAddress waiting = a →
         waiting ∈ inFlight s).
Proof.
  induction events as [|e events IH]; intros s c a n Hkept.
  { split; [exists n; by split; [|left] | done]. }
  cbn [run foldl]. fold (run (step s e).1 events).
  destruct (step_cached s e c a n Hkept) as (m1 & Hkept1 & Hfrom1).
  destruct (IH (step s e).1 c a m1 Hkept1) as [(m & Hfinal & Hfrom) Hwait].
  split.
  - exists m. split; [done|].
    destruct Hfrom as [->|(waiting & Hin & Hc & Ha & Hanswer)]; [done|].
    right. exists waiting. split_and!; try done.
    by eapply step_inFlight.
  - intros waiting Hin Hc Ha. eapply step_inFlight; [done | | done | done].
    by apply Hwait.
Qed.

(** X13.  When the ledger read of a waiting call answers, the call builds its
    token from the answer, the cache from then on holds the answer for that
    chain and address and is unchanged elsewhere, whatever happened to it while
    the call was waiting, and the call waits no longer.  After that, whatever
    turns come in between, every call for the same chain and address ends at
    once, without a ledger read and without a change to the module; its token
    has the decimals of that answer, or those that the ledger answered to
    another call for the same token that was waiting at the same time. *)
Theorem fetchTokenData_caches_decimals (s : State) (i : nat) (request : Request)
    (number : Z) :
  inFlight s !! i = Some request →
  decimals (requestProvider request) (requestAddress request) = Some number →
  let chainId := requestChainId request in
  let address := requestAddress request in
  let settled := (step s (Settle i)).1 in
  (step s (Settle i)).2 =
    Some (sdk (newToken chainId address number
                        (requestSymbol request) (requestName request)))
  ∧ cached (cacheNow settled) chainId address = Some number
  ∧ (∀ otherChain other, (otherChain, other) ≠ (chainId, address) →
       cached (cacheNow settled) otherChain other
       = cached (cacheNow s) otherChain other)
  ∧ inFlight settled = delete i (inFlight s)
  ∧ ∀ (events : list Event) (later : Request),
      requestChainId later = chainId → requestAddress later = address →
      ∃ m,
        step (run settled events) (Call later) =
          (run settled events,
           Some (sdk (newToken chainId address m
                               (requestSymbol later) (requestName later))))
        ∧ (m = number
           ∨ ∃ waiting, waiting ∈ delete i (inFlight s)
               ∧ requestChainId waiting = chainId ∧ requestAddress waiting = address
               ∧ decimals (requestProvider waiting) address = Some m).
Proof.
  intros Hwaiting Hanswer chainId address settled.
  assert (step s (Settle i) =
            (mkState (<[chainId := <[address := number]>
                          (default ∅ (cacheNow s !! chainId))]> (cacheNow s))
                     (delete i (inFlight s)),
             Some (sdk (newToken chainId address number
                                 (requestSymbol request) (requestName request)))))
    as Hstep.
  { unfold step, fetchTokenData_resume. by rewrite Hwaiting, Hanswer. }
  subst settled. rewrite Hstep. cbn [fst snd cacheNow inFlight].
  split_and!; [done | apply cached_insert | | done |].
  - intros otherChain other Hother. by apply cached_insert_other.
  - intros events later Hc Ha.
    destruct (run_cached events
                (mkState (<[chainId := <[address := number]>
                              (default ∅ (cacheNow s !! chainId))]> (cacheNow s))
                         (delete i (inFlight s)))
                chainId address number
                (cached_insert (cacheNow s) chainId address number))
      as [(m & Hfinal & Hfrom) _].
    exists m. split; [|exact Hfrom].
    rewrite <- Hc, <- Ha in Hfinal |- *. by apply step_Call_hit.
Qed.

(** X14.  Over any sequence of calls and settled reads, in any order, an
    entry of the cache is never dropped, and no further call for its chain and
    address starts to wait for the ledger.  Its decimals stay what they are
    unless a call for the same chain and address that was already waiting gets
    another answer from the ledger: when every such call that is answered is
    answered with the cached decimals, and so when none is waiting, the entry
    is the same after every sequence of turns. *)
Theorem cache_entries_are_permanent (s : State) (events : list Event)
    (chainId : Z) (address : string) (number : Z) :
  cached (cacheNow s) chainId address = Some number →
  is_Some (cached (cacheNow (run s events)) chainId address)
  ∧ (∀ waiting, waiting ∈ inFlight (run s events) →
       requestChainId waiting = chainId → requestAddress waiting = address →
       waiting ∈ inFlight s)
  ∧ ((∀ waiting m, waiting ∈ inFlight s →
        requestChainId waiting = chainId → requestAddress waiting = address →
        decimals (requestProvider waiting) address = Some m → m = number) →
     cached (cacheNow (run s events)) chainId address = Some number).
Proof.
  intros Hkept.
  destruct (run_cached events s chainId address number Hkept)
    as [(m & Hfinal & Hfrom) Hwait].
  split_and!; [by exists m | exact Hwait |].
  intros Hagree.
  destruct Hfrom as [->|(waiting & Hin & Hc & Ha & Hanswer)]; [done|].
  by rewrite <- (Hagree waiting m Hin Hc Ha Hanswer).
Qed.

End TokenCache.

Section TokenCacheWitnesses.
Import Fetcher FetcherExamples TokenCacheExamples.

(** Two calls for the same token made before either read has settled both
    wait for the ledger. *)
Example overlapping_calls_both_read :
  inFlight twoWaiting = [askSix; askEighteen]
  ∧ cached (cacheNow twoWaiting) Examples.AVALANCHE (Token.address Examples.USDC) = None.
Proof. split; reflexivity. Qed.

(** When their reads are answered differently, the entry written for the
    first is replaced when the second settles. *)
Example waiting_call_replaces_entry :
  cached (cacheNow (run twoWaiting [Settle 0%nat]))
         Examples.AVALANCHE (Token.address Examples.USDC) = Some 6
  ∧ cached (cacheNow (run twoWaiting [Settle 0%nat; Settle 0%nat]))
           Examples.AVALANCHE (Token.address Examples.USDC) = Some 18.
Proof. split; reflexivity. Qed.

(** Of the two waiting calls for USDC the first settles with six decimals; a
    call made after the second has settled too, with the ledger out of reach,
    ends at once. *)
Lemma fetchTokenData_caches_decimals_witness :
  inFlight twoWaiting !! 0%nat = Some askSix
  ∧ decimals (requestProvider askSix) (requestAddress askSix) = Some 6
  ∧ (step twoWaiting (Settle 0%nat)).2 = Some (Fetched Examples.USDC)
  ∧ cached (cacheNow (step twoWaiting (Settle 0%nat)).1)
           Examples.AVALANCHE (Token.address Examples.USDC) = Some 6
  ∧ cached (cacheNow (step twoWaiting (Settle 0%nat)).1) MAINNET DGD = Some 9
  ∧ inFlight (step twoWaiting (Settle 0%nat)).1 = [askEighteen]
  ∧ ∃ m,
      step (run (step twoWaiting (Settle 0%nat)).1 [Settle 0%nat]) (Call askOffline)
      = (run (step twoWaiting (Settle 0%nat)).1 [Settle 0%nat],
         Some (sdk (newToken Examples.AVALANCHE (Token.address Examples.USDC) m
                             None None)))
      ∧ (m = 6 ∨ m = 18).
Proof.
  destruct (fetchTokenData_caches_decimals twoWaiting 0%nat askSix 6 eq_refl eq_refl)
    as (Houtcome & Hnew & Hold & Hflight & Hlater).
  split; [reflexivity|]. split; [reflexivity|].
  split; [exact Houtcome|]. split; [exact Hnew|].
  split; [rewrite Hold; [reflexivity | discriminate]|].
  split; [exact Hflight|].
  destruct (Hlater [Settle 0%nat] askOffline eq_refl eq_refl)
    as (m & Hcall & [Hm|(waiting & Hin & _ & _ & Hanswer)]).
  - exists m. split; [exact Hcall | by left].
  - exists m. split; [exact Hcall|]. right.
    cbn in Hin. apply list_elem_of_singleton in Hin. subst waiting.
    cbn in Hanswer. congruence.
Defined.

(** DGD on the main chain is in the initial cache with nine decimals, and no
    call waits when the module is loaded: the entry is there after two
    overlapping calls for USDC, a call for DGD and the two reads settling. *)
Lemma cache_entries_are_permanent_witness :
  cached (cacheNow initial) MAINNET DGD = Some 9
  ∧ is_Some (cached (cacheNow (run initial
               [Call askSix; Call askEighteen; Call askDGD; Settle 1%nat; Settle 0%nat]))
               MAINNET DGD)
  ∧ cached (cacheNow (run initial
              [Call askSix; Call askEighteen; Call askDGD; Settle 1%nat; Settle 0%nat]))
           MAINNET DGD = Some 9.
Proof.
  destruct (cache_entries_are_permanent initial
              [Call askSix; Call askEighteen; Call askDGD; Settle 1%nat; Settle 0%nat]
              MAINNET DGD 9 eq_refl) as (Hsome & _ & Hsame).
  split; [reflexivity|]. split; [exact Hsome|].
  apply Hsame. intros waiting m Hin. by apply elem_of_nil in Hin.
Defined.

End TokenCacheWitnesses.

Section RelevantPairs.
Context `{Fetcher.Sdk}.
Import Fetcher.

(** What [fetchRelevantPairs] returns, read from the six lookups. *)
Lemma fetchRelevantPairs_Fetched (chainId : Z) (tokenA tokenB : Token.t)
    (sameObject : bool) (provider : Provider) (pairs : list Pair.t) :
  fetchRelevantPairs chainId tokenA tokenB sameObject provider = Fetched pairs →
  Token.chainId tokenA = Token.chainId tokenB ∧ sameObject = false
  ∧ ∃ constantProduct stable nativeACP nativeAStable nativeBCP nativeBStable,
      _fetchPairIfExists tokenA (Some tokenB) 0 provider = Fetched constantProduct
      ∧ _fetchPairIfExists tokenA (Some tokenB) 1 provider = Fetched stable
      ∧ _fetchPairIfExists tokenA (WETH9 chainId) 0 provider = Fetched nativeACP
      ∧ _fetchPairIfExists tokenA (WETH9 chainId) 1 provider = Fetched nativeAStable
      ∧ _fetchPairIfExists tokenB (WETH9 chainId) 0 provider = Fetched nativeBCP
      ∧ _fetchPairIfExists tokenB (WETH9 chainId) 1 provider = Fetched nativeBStable
      ∧ pairs = omap id [stable; constantProduct; nativeACP; nativeAStable;
                         nativeBCP; nativeBStable].
Proof.
  unfold fetchRelevantPairs. intros Hres.
  destruct (Z.eqb_spec (Token.chainId tokenA) (Token.chainId tokenB)) as [Hchain|_];
    [|discriminate Hres].
  destruct sameObject; [discriminate Hres|].
  cbn [negb invariant sdk mbind fetched_bind] in Hres.
  destruct (_fetchPairIfExists tokenA (Some tokenB) 0 provider) as [cp|];
    cbn [mbind fetched_bind] in Hres; [|discriminate Hres].
  destruct (_fetchPairIfExists tokenA (Some tokenB) 1 provider) as [st|];
    cbn [mbind fetched_bind] in Hres; [|discriminate Hres].
  destruct (_fetchPairIfExists tokenA (WETH9 chainId) 0 provider) as [acp|];
    cbn [mbind fetched_bind] in Hres; [|discriminate Hres].
  destruct (_fetchPairIfExists tokenA (WETH9 chainId) 1 provider) as [ast|];
    cbn [mbind fetched_bind] in Hres; [|discriminate Hres].
  destruct (_fetchPairIfExists tokenB (WETH9 chainId) 0 provider) as [bcp|];
    cbn [mbind fetched_bind] in Hres; [|discriminate Hres].
  destruct (_fetchPairIfExists tokenB (WETH9 chainId) 1 provider) as [bst|];
    cbn [mbind fetched_bind] in Hres; [|discriminate Hres].
  injection Hres as <-. split_and!; [done | done |].
  exists cp, st, acp, ast, bcp, bst. split_and!; try done.
  by destruct st, cp, acp, ast, bcp, bst.
Qed.

(** X15.  [fetchRelevantPairs] returns, in the order stable, constant
    product, then the two pairs of the first token with the wrapped native
    token and the two of the second, exactly the pairs its six lookups found.
    They are at most six, and the Set the result goes through removes nothing,
    since every pair that was fetched is an object of its own. *)
Theorem fetchRelevantPairs_lists_found_pairs (chainId : Z) (tokenA tokenB : Token.t)
    (sameObject : bool) (provider : Provider) (pairs : list Pair.t) :
  fetchRelevantPairs chainId tokenA tokenB sameObject provider = Fetched pairs →
  (length pairs ≤ 6)%nat
  ∧ ∃ constantProduct stable nativeACP nativeAStable nativeBCP nativeBStable,
      _fetchPairIfExists tokenA (Some tokenB) 0 provider = Fetched constantProduct
      ∧ _fetchPairIfExists tokenA (Some tokenB) 1 provider = Fetched stable
      ∧ _fetchPairIfExists tokenA (WETH9 chainId) 0 provider = Fetched nativeACP
      ∧ _fetchPairIfExists tokenA (WETH9 chainId) 1 provider = Fetched nativeAStable
      ∧ _fetchPairIfExists tokenB (WETH9 chainId) 0 provider = Fetched nativeBCP
      ∧ _fetchPairIfExists tokenB (WETH9 chainId) 1 provider = Fetched nativeBStable
      ∧ pairs = omap id [stable; constantProduct; nativeACP; nativeAStable;
                         nativeBCP; nativeBStable].
Proof.
  intros Hres.
  apply fetchRelevantPairs_Fetched in Hres
    as (_ & _ & cp & st & acp & ast & bcp & bst & H1 & H2 & H3 & H4 & H5 & H6 & ->).
  split.
  - destruct st, cp, acp, ast, bcp, bst; simpl; lia.
  - by exists cp, st, acp, ast, bcp, bst.
Qed.

Lemma fetchPairIfExists_none (tokenA tokenB : Token.t) (curveId : Z)
    (provider : Provider) :
  getPair provider (Token.address tokenA) (Token.address tokenB) curveId
    = Some AddressZero →
  _fetchPairIfExists tokenA (Some tokenB) curveId provider = Fetched None.
Proof. intros Hnone. unfold _fetchPairIfExists. cbn. by rewrite Hnone. Qed.

(** X16.  Pairs that have not been created are not returned: when the
    factory answers the zero address to every lookup, the result for two
    different token objects on one chain that has a wrapped native token is the
    empty list, and no pair contract is read. *)
Theorem fetchRelevantPairs_of_empty_factory (chainId : Z) (tokenA tokenB native : Token.t)
    (provider : Provider) :
  Token.chainId tokenA = Token.chainId tokenB →
  WETH9 chainId = Some native →
  (∀ a b curveId, getPair provider a b curveId = Some AddressZero) →
  fetchRelevantPairs chainId tokenA tokenB false provider = Fetched [].
Proof.
  intros Hchain Hnative Hempty. unfold fetchRelevantPairs.
  rewrite Hnative, !fetchPairIfExists_none by apply Hempty.
  apply Z.eqb_eq in Hchain. by rewrite Hchain.
Qed.

(** X17.  On a chain without a wrapped native token [fetchRelevantPairs]
    never returns: the pairs with the native token are looked up for an
    undefined token, which fails, whatever the ledger holds. *)
Theorem fetchRelevantPairs_needs_native (chainId : Z) (tokenA tokenB : Token.t)
    (sameObject : bool) (provider : Provider) :
  WETH9 chainId = None →
  ∃ e, fetchRelevantPairs chainId tokenA tokenB sameObject provider = Failed e.
Proof.
  intros Hnone. unfold fetchRelevantPairs. rewrite Hnone.
  destruct (sdk (invariant _ "CHAIN_ID")) as [[]|e]; [|by eexists].
  cbn [mbind fetched_bind].
  destruct (sdk (invariant _ "SAME_TOKEN")) as [[]|e]; [|by eexists].
  cbn [mbind fetched_bind].
  destruct (_fetchPairIfExists tokenA (Some tokenB) 0 provider) as [cp|e]; [|by eexists].
  cbn [mbind fetched_bind].
  destruct (_fetchPairIfExists tokenA (Some tokenB) 1 provider) as [st|e]; [|by eexists].
  by eexists.
Qed.

End RelevantPairs.

Section RelevantPairsWitnesses.
Import Fetcher FetcherExamples.

(** One pool exists: it is the only pair returned. *)
Lemma fetchRelevantPairs_lists_found_pairs_witness :
  fetchRelevantPairs Examples.AVALANCHE Examples.USDC Examples.USDT false onePool
    = Fetched [fetchedPool]
  ∧ (length [fetchedPool] ≤ 6)%nat.
Proof.
  split; [reflexivity|].
  exact (proj1 (fetchRelevantPairs_lists_found_pairs Examples.AVALANCHE Examples.USDC
                  Examples.USDT false onePool [fetchedPool] eq_refl)).
Defined.

(** USDT and USDC on a factory without pairs. *)
Lemma fetchRelevantPairs_of_empty_factory_witness :
  fetchRelevantPairs Examples.AVALANCHE Examples.USDT Examples.USDC false emptyFactory
    = Fetched [].
Proof.
  apply (fetchRelevantPairs_of_empty_factory Examples.AVALANCHE Examples.USDT
           Examples.USDC Examples.WAVAX emptyFactory); reflexivity.
Defined.

(** The stand-in SDK has no wrapped native token for the main chain. *)
Lemma fetchRelevantPairs_needs_native_witness :
  ∃ e, fetchRelevantPairs MAINNET Examples.USDT Examples.USDC false onePool = Failed e.
Proof.
  apply fetchRelevantPairs_needs_native. reflexivity.
Defined.

End RelevantPairsWitnesses.

(** * The router over any trade *)

Section RouterOpenOutcome.
Context `{Externals}.
Import Router.

(** With the methods the specification describes, the open router is the
    router. *)
Lemma swapCallParameters_specified (trade : Trade.t) (options : TradeOptions) :
  RouterOpen.swapCallParameters (RouterOpen.specified trade) trade options
  = swapCallParameters trade options.
Proof. reflexivity. Qed.

(** The whole of the call as a decision on its inputs and on what the two
    methods of the trade answer. *)
Lemma swapCallParameters_open_outcome (methods : RouterOpen.TradeMethods)
    (trade : Trade.t) (options : TradeOptions) :
  let etherIn := Currency.isNative (CurrencyAmount.currency (Trade.inputAmount trade)) in
  let etherOut := Currency.isNative (CurrencyAmount.currency (Trade.outputAmount trade)) in
  RouterOpen.swapCallParameters methods trade options =
    if etherIn && etherOut then Err NativeInNativeOut
    else match validateAndParseAddress (recipient options) with
         | None => Err (InvalidAddress (recipient options))
         | Some to =>
             maximumIn ← RouterOpen.maximumAmountIn methods (allowedSlippage options);
             minimumOut ← RouterOpen.minimumAmountOut methods (allowedSlippage options);
             if etherOut then
               if CurrencyAmount.quotient minimumOut <? 0 then Err SyntaxError
               else match encodeUnwrapWETH9 (CurrencyAmount.quotient minimumOut)
                            (recipient options) with
                    | None => Err (InvalidAddress (recipient options))
                    | Some _ => Ok (RouterOpen.swapCall trade to maximumIn minimumOut)
                    end
             else Ok (RouterOpen.swapCall trade to maximumIn minimumOut)
         end.
Proof.
  intros etherIn etherOut.
  unfold RouterOpen.swapCallParameters, RouterOpen.swapCall. fold etherIn etherOut.
  destruct etherIn, etherOut; cbn [negb andb invariant mbind result_bind]; [done | | |];
    destruct (validateAndParseAddress (recipient options)) as [to|];
    cbn [mbind result_bind]; try done;
    destruct (RouterOpen.maximumAmountIn methods (allowedSlippage options))
      as [maximumIn|]; cbn [mbind result_bind]; try done;
    destruct (RouterOpen.minimumAmountOut methods (allowedSlippage options))
      as [minimumOut|]; cbn [mbind result_bind]; try done.
  - by destruct (Trade.tradeType trade).
  - destruct (Z.ltb_spec (CurrencyAmount.quotient minimumOut) 0) as [Hneg|Hpos].
    + rewrite (toHex_negative _ Hneg). by destruct (Trade.tradeType trade).
    + rewrite (BigInt_toHex _ Hpos).
      destruct (Trade.tradeType trade); cbn [push app mbind result_bind];
        by destruct (encodeUnwrapWETH9 _ (recipient options)).
  - by destruct (Trade.tradeType trade).
Qed.

(** X3.  [swapCallParameters] returns a result exactly when the two
    currencies are not both native, the recipient is accepted by
    [validateAndParseAddress], the trade's [maximumAmountIn] and
    [minimumAmountOut] both answer and, for a native output, the minimum
    output they answer is not negative and the unwrap call can be encoded. *)
Theorem swapCallParameters_returns_iff (methods : RouterOpen.TradeMethods)
    (trade : Trade.t) (options : TradeOptions) :
  let etherIn := Currency.isNative (CurrencyAmount.currency (Trade.inputAmount trade)) in
  let etherOut := Currency.isNative (CurrencyAmount.currency (Trade.outputAmount trade)) in
  (∃ r, RouterOpen.swapCallParameters methods trade options = Ok r)
  ↔ etherIn && etherOut = false
    ∧ is_Some (validateAndParseAddress (recipient options))
    ∧ ∃ maximumIn minimumOut,
        RouterOpen.maximumAmountIn methods (allowedSlippage options) = Ok maximumIn
        ∧ RouterOpen.minimumAmountOut methods (allowedSlippage options) = Ok minimumOut
        ∧ (etherOut = true →
             0 ≤ CurrencyAmount.quotient minimumOut
             ∧ is_Some (encodeUnwrapWETH9 (CurrencyAmount.quotient minimumOut)
                                          (recipient options))).
Proof.
  intros etherIn etherOut.
  rewrite swapCallParameters_open_outcome. fold etherIn etherOut.
  destruct (etherIn && etherOut).
  { split; [intros [r Hr]; discriminate Hr | intros [Hboth _]; discriminate Hboth]. }
  destruct (validateAndParseAddress (recipient options)) as [to|].
  2: { split; [intros [r Hr]; discriminate Hr | intros (_ & [to Hto] & _); discriminate Hto]. }
  destruct (RouterOpen.maximumAmountIn methods (allowedSlippage options))
    as [maximumIn|e1]; cbn [mbind result_bind].
  2: { split; [intros [r Hr]; discriminate Hr
             | intros (_ & _ & a & b & Ha & _); discriminate Ha]. }
  destruct (RouterOpen.minimumAmountOut methods (allowedSlippage options))
    as [minimumOut|e2]; cbn [mbind result_bind].
  2: { split; [intros [r Hr]; discriminate Hr
             | intros (_ & _ & a & b & _ & Hb & _); discriminate Hb]. }
  destruct etherOut.
  2: { split; [intros _; split_and!; [done | by eexists |];
               by exists maximumIn, minimumOut
             | intros _; by eexists]. }
  destruct (Z.ltb_spec (CurrencyAmount.quotient minimumOut) 0) as [Hneg|Hpos].
  { split; [intros [r Hr]; discriminate Hr | intros (_ & _ & a & b & _ & Hb & Hout)].
    injection Hb as <-. destruct (Hout eq_refl) as [Hpos _]. lia. }
  destruct (encodeUnwrapWETH9 (CurrencyAmount.quotient minimumOut) (recipient options))
    as [unwrap|] eqn:Hunwrap.
  - split; [|intros _; by eexists].
    intros _. split_and!; [done | by eexists |].
    exists maximumIn, minimumOut. split_and!; [done | done |].
    intros _. rewrite Hunwrap. split; [done | by eexists].
  - split; [intros [r Hr]; discriminate Hr | intros (_ & _ & a & b & _ & Hb & Hout)].
    injection Hb as <-. destruct (Hout eq_refl) as [_ [unwrap Hsome]].
    rewrite Hunwrap in Hsome. discriminate Hsome.
Qed.

(** X4.  The errors of [swapCallParameters], in the order they can arise:
    NativeInNativeOut when both currencies are native, whatever the recipient
    and the trade are; then the invalid-address error when the recipient is
    refused; then whatever the trade's [maximumAmountIn] throws; then whatever
    its [minimumAmountOut] throws; then, for a native output, a syntax error
    when the minimum output is negative, and the invalid-address error when the
    unwrap call cannot be encoded.  No other error is raised. *)
Theorem swapCallParameters_errors (methods : RouterOpen.TradeMethods)
    (trade : Trade.t) (options : TradeOptions) :
  let etherIn := Currency.isNative (CurrencyAmount.currency (Trade.inputAmount trade)) in
  let etherOut := Currency.isNative (CurrencyAmount.currency (Trade.outputAmount trade)) in
  let call := RouterOpen.swapCallParameters methods trade options in
  let maximumIn := RouterOpen.maximumAmountIn methods (allowedSlippage options) in
  let minimumOut := RouterOpen.minimumAmountOut methods (allowedSlippage options) in
  (∀ e, call = Err e →
     e = NativeInNativeOut ∨ e = InvalidAddress (recipient options)
     ∨ maximumIn = Err e ∨ minimumOut = Err e ∨ e = SyntaxError)
  ∧ (etherIn && etherOut = true → call = Err NativeInNativeOut)
  ∧ (etherIn && etherOut = false →
     validateAndParseAddress (recipient options) = None →
     call = Err (InvalidAddress (recipient options)))
  ∧ (etherIn && etherOut = false →
     is_Some (validateAndParseAddress (recipient options)) →
     (∀ e, maximumIn = Err e → call = Err e)
     ∧ (∀ e amount, maximumIn = Ok amount → minimumOut = Err e → call = Err e)
     ∧ (∀ amountIn amountOut, maximumIn = Ok amountIn → minimumOut = Ok amountOut →
          etherOut = true →
          (CurrencyAmount.quotient amountOut < 0 → call = Err SyntaxError)
          ∧ (0 ≤ CurrencyAmount.quotient amountOut →
             encodeUnwrapWETH9 (CurrencyAmount.quotient amountOut) (recipient options)
               = None →
             call = Err (InvalidAddress (recipient options))))).
Proof.
  intros etherIn etherOut call maximumIn minimumOut. subst call maximumIn minimumOut.
  rewrite swapCallParameters_open_outcome. fold etherIn etherOut.
  split_and!.
  - intros e.
    destruct (etherIn && etherOut); [intros He; injection He as <-; by left|].
    destruct (validateAndParseAddress (recipient options)) as [to|];
      [|intros He; injection He as <-; right; by left].
    destruct (RouterOpen.maximumAmountIn methods (allowedSlippage options))
      as [amountIn|e1]; cbn [mbind result_bind];
      [|intros He; injection He as <-; right; right; by left].
    destruct (RouterOpen.minimumAmountOut methods (allowedSlippage options))
      as [amountOut|e2]; cbn [mbind result_bind];
      [|intros He; injection He as <-; right; right; right; by left].
    destruct etherOut; [|intros He; discriminate He].
    destruct (CurrencyAmount.quotient amountOut <? 0);
      [intros He; injection He as <-; by repeat right|].
    destruct (encodeUnwrapWETH9 _ _);
      [intros He; discriminate He | intros He; injection He as <-; right; by left].
  - by intros ->.
  - by intros -> ->.
  - intros -> [to ->]. split_and!.
    + by intros e ->.
    + by intros e amount -> ->.
    + intros amountIn amountOut -> -> ->. cbn [mbind result_bind]. split.
      * intros Hneg. by replace (CurrencyAmount.quotient amountOut <? 0) with true by lia.
      * intros Hpos ->.
        by replace (CurrencyAmount.quotient amountOut <? 0) with false by lia.
Qed.

(** A trade whose methods refuse a negative slippage tolerance: the call
    fails with that refusal once the recipient has been accepted. *)
Example negative_slippage_refused :
  @RouterOpen.swapCallParameters Examples.externals
    (RouterOpen.guarded Examples.tradeOut) Examples.tradeOut
    (mkOptions RouterOpen.negativeSlippage Examples.alice None)
  = Err (Invariant "SLIPPAGE_TOLERANCE").
Proof. reflexivity. Qed.

End RouterOpenOutcome.

(** ** The path and the curve ids of a call *)

Section RouterPath.
Import Router.

(** What the constructor returns is a constructed route. *)
Lemma Constructed_constructor (pairs : list Pair.t) (input : Currency.t)
    (output : option Currency.t) (r : Route.t) :
  Route.constructor pairs input output = Ok r →
  RouteSpec.Constructed pairs input output r.
Proof. intros Hr. exists r. split; [done|]. by destruct r. Qed.

(** Reading [midPrice] leaves a constructed route constructed: only the memo
    field is written. *)
Lemma Constructed_midPrice (pairs : list Pair.t) (input : Currency.t)
    (output : option Currency.t) (route after : Route.t) (price : Price.t) :
  RouteSpec.Constructed pairs input output route →
  Route.midPrice route = Ok (price, after) →
  RouteSpec.Constructed pairs input output after.
Proof.
  intros (r & Hr & Hroute) Hmid. exists r. split; [done|].
  destruct route as [ps path0 input0 output0 memo].
  cbn [Route._midPrice] in Hroute. injection Hroute as -> -> -> ->.
  unfold Route.midPrice in Hmid.
  cbn [Route._midPrice Route.pairs Route.path Route.input Route.output] in Hmid.
  destruct memo as [cached|].
  { by injection Hmid as _ <-. }
  destruct (Route.midPrice_loop _ _ _) as [prices|]; [|discriminate Hmid].
  cbn [mbind result_bind] in Hmid.
  destruct (Route.reduce _ _ _) as [reduced|]; [|discriminate Hmid].
  cbn [mbind result_bind] in Hmid.
  destruct (defined reduced) as [reduced'|]; [|discriminate Hmid].
  cbn [mbind result_bind] in Hmid.
  destruct (defined (Route.output r)) as [quote|]; [|discriminate Hmid].
  cbn [mbind result_bind] in Hmid. by injection Hmid as _ <-.
Qed.

(** The example route with its mid price read is what [midPrice] leaves. *)
Example pricedRoute_is_read :
  ∃ price, Route.midPrice Examples.routeOut = Ok (price, RouterOpen.pricedRoute).
Proof. eexists. reflexivity. Qed.

(** X6.  For a trade over a route that the constructor built, whether or not
    its mid price has been read since and whatever the trade's two methods
    answer, the positional arguments of every result hold a path with exactly
    one more address than there are curve ids, one curve id per pair of the
    route, and the path starts with the address of the wrapped input token. *)
Theorem encoded_path_has_one_more_than_curveIds `{Externals}
    (methods : RouterOpen.TradeMethods) (pairs : list Pair.t)
    (input : Currency.t) (output : option Currency.t) (trade : Trade.t)
    (options : TradeOptions) (res : SwapParameters) :
  RouteSpec.Constructed pairs input output (Trade.route trade) →
  RouterOpen.swapCallParameters methods trade options = Ok res →
  ∃ first second path curveIds to,
    args res = Positional [ArgString first; ArgString second; ArgStrings path;
                           ArgNumbers curveIds; ArgString to]
    ∧ length path = S (length curveIds)
    ∧ length curveIds = length pairs
    ∧ curveIds = Pair.curveId <$> pairs
    ∧ head path = Some (Token.address (Currency.wrapped input)).
Proof.
  intros (r & Hr & Hroute) Hres.
  destruct (constructor_cases pairs input output)
    as [(_ & E) | [(_ & _ & E) | [(_ & _ & _ & E) | [(_ & _ & _ & _ & E)
       | [(_ & _ & _ & _ & _ & E) | (_ & _ & _ & _ & _ & ts & Hts & E)]]]]];
    rewrite E in Hr; try discriminate Hr.
  injection Hr as Hr.
  apply follow_Chain, Chain_length in Hts.
  rewrite swapCallParameters_open_outcome in Hres.
  assert (∃ to maximumIn minimumOut,
            res = RouterOpen.swapCall trade to maximumIn minimumOut)
    as (to & maximumIn & minimumOut & ->).
  { destruct (_ && _); [discriminate Hres|].
    destruct (validateAndParseAddress _) as [to|]; [|discriminate Hres].
    destruct (RouterOpen.maximumAmountIn _ _) as [maximumIn|]; [|discriminate Hres].
    destruct (RouterOpen.minimumAmountOut _ _) as [minimumOut|]; [|discriminate Hres].
    cbn [mbind result_bind] in Hres.
    repeat match type of Hres with
           | (if ?c then _ else _) = _ => destruct c
           | match ?c with _ => _ end = _ => destruct c
           end; try discriminate Hres; injection Hres as <-; by eexists _, _, _. }
  unfold RouterOpen.swapCall. rewrite Hroute, <- Hr. cbn [Route.path Route.pairs].
  destruct (Trade.tradeType trade); cbn [args];
    eexists _, _, _, _, _; (split_and!; [reflexivity | | | reflexivity | reflexivity]);
    rewrite !length_fmap; simpl in Hts |- *; lia.
Qed.

(** The trade with a native output over the route USDC, USDT, WAVAX whose mid
    price has been read, with the methods of the specification. *)
Lemma encoded_path_has_one_more_than_curveIds_witness :
  RouteSpec.Constructed [Examples.pool1; Examples.pool2] (Currency.Tok Examples.USDC)
    (Some Examples.AVAX) (Trade.route RouterOpen.pricedTrade)
  ∧ @RouterOpen.swapCallParameters Examples.externals
      (RouterOpen.specified RouterOpen.pricedTrade) RouterOpen.pricedTrade
      Examples.options = Ok Examples.callOut
  ∧ ∃ first second path curveIds to,
      args Examples.callOut =
        Positional [ArgString first; ArgString second; ArgStrings path;
                    ArgNumbers curveIds; ArgString to]
      ∧ length path = S (length curveIds)
      ∧ length curveIds = 2%nat
      ∧ curveIds = Pair.curveId <$> [Examples.pool1; Examples.pool2]
      ∧ head path = Some (Token.address Examples.USDC).
Proof.
  assert (RouteSpec.Constructed [Examples.pool1; Examples.pool2]
            (Currency.Tok Examples.USDC) (Some Examples.AVAX)
            (Trade.route RouterOpen.pricedTrade)) as Hroute.
  { exists Examples.routeOut. split; reflexivity. }
  assert (@RouterOpen.swapCallParameters Examples.externals
            (RouterOpen.specified RouterOpen.pricedTrade) RouterOpen.pricedTrade
            Examples.options = Ok Examples.callOut) as Hcall by reflexivity.
  split; [exact Hroute|]. split; [exact Hcall|].
  exact (@encoded_path_has_one_more_than_curveIds Examples.externals
           (RouterOpen.specified RouterOpen.pricedTrade)
           [Examples.pool1; Examples.pool2] (Currency.Tok Examples.USDC)
           (Some Examples.AVAX) RouterOpen.pricedTrade Examples.options Examples.callOut
           Hroute Hcall).
Defined.

End RouterPath.
